(** * Tors Community API: the store and its HTTP handlers (src/index.js)

    A shallow embedding of the Express application of [src/index.js]: the
    three SQLite tables, every prepared statement the handlers run, the
    api-key middleware and the twelve route handlers, followed by the
    properties of the store operations. *)

From Stdlib Require Import ZArith List String Bool Lia.
Import ListNotations.

Local Open Scope string_scope.
Local Open Scope Z_scope.

(** ** Rows of the three tables (index.js, lines 29-50) *)

(** [tasks(id, name, description, eta, category_id)]; [category_id] is the
    only nullable column. *)
Record Task := mkTask {
  task_id : Z;
  task_name : string;
  task_description : string;
  task_eta : string;
  task_category_id : option Z
}.

(** [categories(id, name)] *)
Record Category := mkCategory {
  category_id : Z;
  category_name : string
}.

(** [config(id CHECK (id = 1), theme)] *)
Record Config := mkConfig {
  config_id : Z;
  config_theme : string
}.

(** The database file.  Tables are lists of rows in insertion order.  Both
    [tasks] and [categories] are declared AUTOINCREMENT, so SQLite keeps for
    each the largest rowid ever handed out (table [sqlite_sequence]); rowids
    are unbounded integers here. *)
Record Db := mkDb {
  tasks : list Task;
  categories : list Category;
  config : list Config;
  tasks_seq : Z;
  categories_seq : Z
}.

(** ** Values coming from the request *)

(** A text field of the JSON body, [None] when the key is absent (or JSON
    null): JavaScript sees [undefined]/[null], which are falsy and which
    better-sqlite3 binds as SQL NULL. *)
Definition Field := option string.

(** [parseInt(req.params.id, 10)], [None] for NaN.  Bound as a parameter NaN
    is NULL for SQLite, so [id = ?] holds for no row.  The same type serves
    for [categoryId] read from the body ([None] when absent). *)
Definition Id := option Z.

(** JavaScript truthiness of a text field: [!v] is true for undefined, null
    and the empty string. *)
Definition truthy (v : Field) : bool :=
  match v with
  | None => false
  | Some s => negb (String.eqb s "")
  end.

(** ** Statements and the connection *)

(** Every statement of the source, with its bound parameters.  The connection
    is opened with [verbose: console.log] (line 9), so each executed
    statement leaves an entry in the log. *)
Inductive Sql :=
| SqlSchema
| SqlSelectTasksJoin
| SqlSelectCategories
| SqlSelectCategoryName (id : Id)
| SqlSelectTask (id : Id)
| SqlSelectCategory (id : Id)
| SqlInsertTask (name description eta : Field)
| SqlInsertCategory (name : Field)
| SqlUpdateTask (name description eta : Field) (id : Id)
| SqlUpdateCategory (name : Field) (id : Id)
| SqlDeleteTask (id : Id)
| SqlDeleteCategory (id : Id)
| SqlNullOutCategory (id : Id)
| SqlAssignCategory (categoryId taskId : Id)
| SqlUpdateTheme (theme : Field)
| SqlSelectTheme.

(** What a statement or a handler can throw. *)
Inductive Exn :=
| NotNullConstraint      (* SqliteError: NOT NULL constraint failed *)
| ForeignKeyConstraint   (* SqliteError: FOREIGN KEY constraint failed *)
| TypeError.             (* reading a property of undefined *)

(** The process: the database, the statement log, and whether the connection
    enforces foreign keys ([PRAGMA foreign_keys]).  The source never sets the
    pragma, so the connection runs with the default of the SQLite build that
    better-sqlite3 bundles, which is compiled with
    [SQLITE_DEFAULT_FOREIGN_KEYS=1]: see [default_foreign_keys]. *)
Record World := mkWorld {
  db : Db;
  sql_log : list Sql;
  foreign_keys : bool
}.

Definition default_foreign_keys : bool := true.

(** ** A state monad with exceptions

    A thrown exception keeps the state reached so far: the handlers run their
    statements outside any transaction, so what was written before the throw
    stays written. *)
Inductive Outcome (A : Type) :=
| Ok (a : A)
| Throw (e : Exn).
Arguments Ok {A} a.
Arguments Throw {A} e.

Definition M (A : Type) : Type := World -> Outcome A * World.

Definition ret {A} (a : A) : M A := fun w => (Ok a, w).

Definition throw {A} (e : Exn) : M A := fun w => (Throw e, w).

Definition bind {A B} (m : M A) (k : A -> M B) : M B :=
  fun w =>
    match m w with
    | (Ok a, w') => k a w'
    | (Throw e, w') => (Throw e, w')
    end.

Declare Scope db_scope.
Delimit Scope db_scope with db.
Notation "x <- m ;; k" := (bind m (fun x => k))
  (at level 100, m at next level, right associativity) : db_scope.
Notation "m ;; k" := (bind m (fun _ => k))
  (at level 100, right associativity) : db_scope.
Local Open Scope db_scope.

(** Record the statement in the log, as [verbose] does before running it. *)
Definition logged (q : Sql) : M unit :=
  fun w => (Ok tt, mkWorld (db w) (sql_log w ++ [q]) (foreign_keys w)).

Definition get_db : M Db := fun w => (Ok (db w), w).

Definition put_db (d : Db) : M unit :=
  fun w => (Ok tt, mkWorld d (sql_log w) (foreign_keys w)).

Definition get_foreign_keys : M bool := fun w => (Ok (foreign_keys w), w).

(** ** The prepared statements *)

(** [id = ?] against a bound parameter. *)
Definition id_is (i : Id) (x : Z) : bool :=
  match i with
  | Some z => z =? x
  | None => false
  end.

(** [category_id = ?]: a NULL column equals nothing. *)
Definition refers_to (i : Id) (t : Task) : bool :=
  match task_category_id t with
  | Some c => id_is i c
  | None => false
  end.

(** [COALESCE(?, column)] *)
Definition coalesce (v : Field) (old : string) : string :=
  match v with
  | Some s => s
  | None => old
  end.

(** The rowid AUTOINCREMENT picks: one more than the largest rowid the table
    has ever held. *)
Definition max_rowid (ids : list Z) : Z := fold_right Z.max 0 ids.

Definition next_rowid (seq : Z) (ids : list Z) : Z :=
  Z.max seq (max_rowid ids) + 1.

(** [SELECT * FROM tasks WHERE id = ?] with [.get(id)] *)
Definition select_task (id : Id) : M (option Task) :=
  logged (SqlSelectTask id) ;;
  d <- get_db ;;
  ret (find (fun t => id_is id (task_id t)) (tasks d)).

(** [SELECT * FROM categories WHERE id = ?] with [.get(id)] *)
Definition select_category (id : Id) : M (option Category) :=
  logged (SqlSelectCategory id) ;;
  d <- get_db ;;
  ret (find (fun c => id_is id (category_id c)) (categories d)).

(** [SELECT name FROM categories WHERE id = ?] with [.get(id)] *)
Definition select_category_name (id : Id) : M (option string) :=
  logged (SqlSelectCategoryName id) ;;
  d <- get_db ;;
  ret (option_map category_name
         (find (fun c => id_is id (category_id c)) (categories d))).

(** A row of [GET /tasks]: the task columns and the joined category name. *)
Record TaskRow := mkTaskRow {
  row_id : Z;
  row_name : string;
  row_description : string;
  row_eta : string;
  row_category : option string
}.

Definition join_task (cats : list Category) (t : Task) : list TaskRow :=
  let row c := mkTaskRow (task_id t) (task_name t) (task_description t)
                         (task_eta t) c in
  match filter (fun c => id_is (task_category_id t) (category_id c)) cats with
  | [] => [row None]
  | matches => map (fun c => row (Some (category_name c))) matches
  end.

(** [SELECT ... FROM tasks LEFT JOIN categories ON tasks.category_id =
    categories.id] with [.all()] *)
Definition select_tasks_join : M (list TaskRow) :=
  logged SqlSelectTasksJoin ;;
  d <- get_db ;;
  ret (flat_map (join_task (categories d)) (tasks d)).

(** [SELECT * FROM categories] with [.all()] *)
Definition select_categories : M (list Category) :=
  logged SqlSelectCategories ;;
  d <- get_db ;;
  ret (categories d).

(** [INSERT INTO tasks (name, description, eta) VALUES (?, ?, ?)]; the three
    columns are NOT NULL, [category_id] is left NULL.  Returns
    [lastInsertRowid]. *)
Definition insert_task (name description eta : Field) : M Z :=
  logged (SqlInsertTask name description eta) ;;
  d <- get_db ;;
  match name, description, eta with
  | Some n, Some dsc, Some e =>
      let id := next_rowid (tasks_seq d) (map task_id (tasks d)) in
      put_db (mkDb (tasks d ++ [mkTask id n dsc e None]) (categories d)
                   (config d) id (categories_seq d)) ;;
      ret id
  | _, _, _ => throw NotNullConstraint
  end.

(** [INSERT INTO categories (name) VALUES (?)] *)
Definition insert_category (name : Field) : M Z :=
  logged (SqlInsertCategory name) ;;
  d <- get_db ;;
  match name with
  | Some n =>
      let id := next_rowid (categories_seq d) (map category_id (categories d)) in
      put_db (mkDb (tasks d) (categories d ++ [mkCategory id n])
                   (config d) (tasks_seq d) id) ;;
      ret id
  | None => throw NotNullConstraint
  end.

(** [UPDATE tasks SET name = COALESCE(?, name), description = COALESCE(?,
    description), eta = COALESCE(?, eta) WHERE id = ?] *)
Definition update_task_row (name description eta : Field) (id : Id)
    (t : Task) : Task :=
  if id_is id (task_id t)
  then mkTask (task_id t) (coalesce name (task_name t))
              (coalesce description (task_description t))
              (coalesce eta (task_eta t)) (task_category_id t)
  else t.

Definition update_task (name description eta : Field) (id : Id) : M unit :=
  logged (SqlUpdateTask name description eta id) ;;
  d <- get_db ;;
  put_db (mkDb (map (update_task_row name description eta id) (tasks d))
               (categories d) (config d) (tasks_seq d) (categories_seq d)).

(** [UPDATE categories SET name = ? WHERE id = ?]; [name] is NOT NULL
    (line 41), so a NULL parameter fails the statement on the first row it
    would write. *)
Definition update_category (name : Field) (id : Id) : M unit :=
  logged (SqlUpdateCategory name id) ;;
  d <- get_db ;;
  match name with
  | Some n =>
      put_db (mkDb (tasks d)
                   (map (fun c => if id_is id (category_id c)
                                  then mkCategory (category_id c) n else c)
                        (categories d))
                   (config d) (tasks_seq d) (categories_seq d))
  | None =>
      if existsb (fun c => id_is id (category_id c)) (categories d)
      then throw NotNullConstraint
      else ret tt
  end.

(** [DELETE FROM tasks WHERE id = ?] *)
Definition delete_task (id : Id) : M unit :=
  logged (SqlDeleteTask id) ;;
  d <- get_db ;;
  put_db (mkDb (filter (fun t => negb (id_is id (task_id t))) (tasks d))
               (categories d) (config d) (tasks_seq d) (categories_seq d)).

(** [DELETE FROM categories WHERE id = ?].  [tasks.category_id] REFERENCES
    [categories(id)] (line 36) with no ON DELETE action: when foreign keys
    are enforced, deleting a category some task still refers to fails the
    statement and deletes nothing. *)
Definition delete_category (id : Id) : M unit :=
  logged (SqlDeleteCategory id) ;;
  d <- get_db ;;
  fk <- get_foreign_keys ;;
  if fk && existsb (fun c => id_is id (category_id c)) (categories d)
        && existsb (refers_to id) (tasks d)
  then throw ForeignKeyConstraint
  else
    put_db (mkDb (tasks d)
                 (filter (fun c => negb (id_is id (category_id c))) (categories d))
                 (config d) (tasks_seq d) (categories_seq d)).

(** [UPDATE tasks SET category_id = NULL WHERE category_id = ?] *)
Definition null_out_category (id : Id) : M unit :=
  logged (SqlNullOutCategory id) ;;
  d <- get_db ;;
  put_db (mkDb (map (fun t => if refers_to id t
                              then mkTask (task_id t) (task_name t)
                                     (task_description t) (task_eta t) None
                              else t) (tasks d))
               (categories d) (config d) (tasks_seq d) (categories_seq d)).

(** [UPDATE tasks SET category_id = ? WHERE id = ?].  With foreign keys
    enforced the new value must be NULL or the id of a category. *)
Definition assign_category (categoryId taskId : Id) : M unit :=
  logged (SqlAssignCategory categoryId taskId) ;;
  d <- get_db ;;
  fk <- get_foreign_keys ;;
  if fk && existsb (fun t => id_is taskId (task_id t)) (tasks d)
        && match categoryId with
           | Some c => negb (existsb (fun k => category_id k =? c) (categories d))
           | None => false
           end
  then throw ForeignKeyConstraint
  else
    put_db (mkDb (map (fun t => if id_is taskId (task_id t)
                                then mkTask (task_id t) (task_name t)
                                       (task_description t) (task_eta t)
                                       categoryId
                                else t) (tasks d))
                 (categories d) (config d) (tasks_seq d) (categories_seq d)).

(** [UPDATE config SET theme = ? WHERE id = 1]; [theme] is NOT NULL. *)
Definition update_theme (theme : Field) : M unit :=
  logged (SqlUpdateTheme theme) ;;
  d <- get_db ;;
  match theme with
  | Some th =>
      put_db (mkDb (tasks d) (categories d)
                   (map (fun c => if config_id c =? 1
                                  then mkConfig (config_id c) th else c)
                        (config d))
                   (tasks_seq d) (categories_seq d))
  | None =>
      if existsb (fun c => config_id c =? 1) (config d)
      then throw NotNullConstraint
      else ret tt
  end.

(** [getTheme] (lines 52-54): [SELECT theme FROM config WHERE id = 1], then
    [.get().theme], which throws when there is no row. *)
Definition getTheme : M string :=
  logged SqlSelectTheme ;;
  d <- get_db ;;
  match find (fun c => config_id c =? 1) (config d) with
  | Some row => ret (config_theme row)
  | None => throw TypeError
  end.

(** The [db.exec] of lines 29-50.  The tables are created only if missing
    (a missing table is an empty one here), and the default row goes in with
    INSERT OR IGNORE: nothing happens when a row with id 1 is there. *)
Definition initialize : M unit :=
  logged SqlSchema ;;
  d <- get_db ;;
  if existsb (fun c => config_id c =? 1) (config d)
  then ret tt
  else put_db (mkDb (tasks d) (categories d)
                    (config d ++ [mkConfig 1 "Desert"])
                    (tasks_seq d) (categories_seq d)).

(** ** Responses *)

Inductive Body :=
| Message (message : string)
| TaskList (rows : list TaskRow)
| CategoryList (rows : list Category)
| CategoryName (name : string)
| TaskCreated (message : string) (taskId : Z)
| CategoryCreated (message : string) (categoryId : Z)
| Theme (theme : string)
| ErrorPage (e : Exn).

Record Response := mkResponse {
  status : Z;
  body : Body
}.

(** [res.status(code).send(b)] *)
Definition send (code : Z) (b : Body) : M Response := ret (mkResponse code b).

(** ** The route handlers (lines 56-201) *)

(** GET /tasks *)
Definition listTasks : M Response :=
  rows <- select_tasks_join ;;
  send 200 (TaskList rows).

(** GET /categories *)
Definition listCategories : M Response :=
  rows <- select_categories ;;
  send 200 (CategoryList rows).

(** GET /categories/:id *)
Definition getCategory (id : Id) : M Response :=
  category <- select_category_name id ;;
  match category with
  | None => send 404 (Message "Category not found.")
  | Some name => send 200 (CategoryName name)
  end.

(** POST /tasks *)
Definition createTask (name description eta : Field) : M Response :=
  if negb (truthy name) || negb (truthy description) || negb (truthy eta)
  then send 400 (Message "Missing required fields: name, description, eta.")
  else
    lastInsertRowid <- insert_task name description eta ;;
    send 201 (TaskCreated "Task created successfully!" lastInsertRowid).

(** POST /categories *)
Definition createCategory (name : Field) : M Response :=
  if negb (truthy name)
  then send 400 (Message "Category name is required.")
  else
    lastInsertRowid <- insert_category name ;;
    send 201 (CategoryCreated "Category created successfully!" lastInsertRowid).

(** PUT /tasks/:id *)
Definition updateTask (id : Id) (name description eta : Field) : M Response :=
  task <- select_task id ;;
  match task with
  | None => send 404 (Message "Task not found.")
  | Some _ =>
      update_task name description eta id ;;
      send 200 (Message "Task updated successfully!")
  end.

(** PUT /categories/:id *)
Definition updateCategory (id : Id) (name : Field) : M Response :=
  category <- select_category id ;;
  match category with
  | None => send 404 (Message "Category not found.")
  | Some _ =>
      update_category name id ;;
      send 200 (Message "Category updated successfully!")
  end.

(** DELETE /tasks/:id *)
Definition deleteTask (id : Id) : M Response :=
  task <- select_task id ;;
  match task with
  | None => send 404 (Message "Task not found.")
  | Some _ =>
      delete_task id ;;
      send 200 (Message "Task deleted successfully!")
  end.

(** DELETE /categories/:id *)
Definition deleteCategory (id : Id) : M Response :=
  category <- select_category id ;;
  match category with
  | None => send 404 (Message "Category not found.")
  | Some _ =>
      delete_category id ;;
      null_out_category id ;;
      send 200 (Message "Category deleted successfully!")
  end.

(** POST /tasks/:id/assign-category *)
Definition assignCategory (taskId categoryId : Id) : M Response :=
  task <- select_task taskId ;;
  category <- select_category categoryId ;;
  match task with
  | None => send 404 (Message "Crud! Task not found.")
  | Some _ =>
      match category with
      | None => send 404 (Message "Category not found.")
      | Some _ =>
          assign_category categoryId taskId ;;
          send 200 (Message "Aye aye, category assigned successfully!")
      end
  end.

Definition validThemes : list string := ["Desert"; "Oasis"; "Forest"; "Snow"].

(** [validThemes.includes(v)] *)
Definition includes (l : list string) (v : Field) : bool :=
  match v with
  | Some s => existsb (String.eqb s) l
  | None => false
  end.

(** POST /theme *)
Definition setTheme (newTheme : Field) : M Response :=
  if negb (includes validThemes newTheme)
  then send 400 (Message "Invalid theme.")
  else
    update_theme newTheme ;;
    send 200 (Message ("Ahoy! Theme changed to "
                       ++ match newTheme with Some t => t | None => "undefined" end
                       ++ ".")).

(** GET /theme *)
Definition readTheme : M Response :=
  theme <- getTheme ;;
  send 200 (Theme theme).

(** ** The application *)

Inductive Request :=
| GET_tasks
| GET_categories
| GET_category (id : Id)
| POST_tasks (name description eta : Field)
| POST_categories (name : Field)
| PUT_task (id : Id) (name description eta : Field)
| PUT_category (id : Id) (name : Field)
| DELETE_task (id : Id)
| DELETE_category (id : Id)
| POST_assign_category (taskId categoryId : Id)
| POST_theme (newTheme : Field)
| GET_theme.

Definition route (r : Request) : M Response :=
  match r with
  | GET_tasks => listTasks
  | GET_categories => listCategories
  | GET_category id => getCategory id
  | POST_tasks name description eta => createTask name description eta
  | POST_categories name => createCategory name
  | PUT_task id name description eta => updateTask id name description eta
  | PUT_category id name => updateCategory id name
  | DELETE_task id => deleteTask id
  | DELETE_category id => deleteCategory id
  | POST_assign_category taskId categoryId => assignCategory taskId categoryId
  | POST_theme newTheme => setTheme newTheme
  | GET_theme => readTheme
  end.

(** [clientApiKey !== serverApiKey] is the negation of this. *)
Definition field_eqb (a b : Field) : bool :=
  match a, b with
  | Some x, Some y => String.eqb x y
  | None, None => true
  | _, _ => false
  end.

(** The api-key middleware (lines 11-25): [serverApiKey] is
    [process.env.API_KEY], [clientApiKey] is [req.header('api-key')], [next]
    is the rest of the chain. *)
Definition api_key_middleware (serverApiKey clientApiKey : Field)
    (next : M Response) : M Response :=
  if negb (truthy serverApiKey)
  then send 500 (Message "Server configuration error.")
  else if negb (field_eqb clientApiKey serverApiKey)
  then send 403 (Message "Forbidden: Invalid API Key.")
  else next.

(** Express answers 500 when a handler throws. *)
Definition respond (h : M Response) (w : World) : Response * World :=
  match h w with
  | (Ok r, w') => (r, w')
  | (Throw e, w') => (mkResponse 500 (ErrorPage e), w')
  end.

(** One request through the application. *)
Definition app (serverApiKey clientApiKey : Field) (r : Request)
    (w : World) : Response * World :=
  respond (api_key_middleware serverApiKey clientApiKey (route r)) w.

(** A store operation called directly, past the middleware. *)
Definition call (h : M Response) (w : World) : Response * World := respond h w.

(** ** Start-up and reachable states *)

Definition empty_db : Db := mkDb [] [] [] 0 0.

(** The process just started on a database file that did not exist. *)
Definition start (fk : bool) : World :=
  snd (initialize (mkWorld empty_db [] fk)).

(** One step in the life of the database file: a request is served, or the
    process is restarted on the same file. *)
Inductive step : World -> World -> Prop :=
| step_request w serverApiKey clientApiKey r :
    step w (snd (app serverApiKey clientApiKey r w))
| step_restart w :
    step w (snd (initialize w)).

(** [evolves w w']: [w'] comes after [w] in some history of the service. *)
Inductive evolves : World -> World -> Prop :=
| evolves_refl w : evolves w w
| evolves_step w1 w2 w3 : evolves w1 w2 -> step w2 w3 -> evolves w1 w3.

(** States the service can be in. *)
Definition reachable (w : World) : Prop := exists fk, evolves (start fk) w.

(** Several requests in a row, with the responses. *)
Fixpoint serve (key : Field) (rs : list Request) (w : World)
    : list Response * World :=
  match rs with
  | [] => ([], w)
  | r :: rs' =>
      let (resp, w1) := app key key r w in
      let (resps, w2) := serve key rs' w1 in
      (resp :: resps, w2)
  end.

(** ** Vocabulary of the properties *)

(** [respects R m]: whatever [m] does, and whether it returns or throws, the
    tables before and after are related by [R]. *)
Definition respects {A} (R : Db -> Db -> Prop) (m : M A) : Prop :=
  forall w, R (db w) (db (snd (m w))).

(** What it takes for [R] to hold across every operation: a preorder that
    each writing statement respects ([update_theme] only for the themes
    [setTheme] lets through). *)
Record Preserved (R : Db -> Db -> Prop) : Prop := {
  R_refl : forall d, R d d;
  R_trans : forall a b c, R a b -> R b c -> R a c;
  R_insert_task : forall n d e, respects R (insert_task n d e);
  R_insert_category : forall n, respects R (insert_category n);
  R_update_task : forall n d e id, respects R (update_task n d e id);
  R_update_category : forall n id, respects R (update_category n id);
  R_delete_task : forall id, respects R (delete_task id);
  R_delete_category : forall id, respects R (delete_category id);
  R_null_out_category : forall id, respects R (null_out_category id);
  R_assign_category : forall c t, respects R (assign_category c t);
  R_update_theme :
    forall th, includes validThemes th = true -> respects R (update_theme th)
}.

(** The rowid counters of [d'] are not below those of [d]. *)
Definition seq_le (d d' : Db) : Prop :=
  tasks_seq d <= tasks_seq d' /\ categories_seq d <= categories_seq d'.

(** [d'] has the config rows of [d], up to their themes. *)
Definition same_config_rows (d d' : Db) : Prop :=
  map config_id (config d') = map config_id (config d).

(** The config table as the schema and the start-up script leave it: exactly
    the row with id 1, holding one of the four themes. *)
Definition valid_config (d : Db) : Prop :=
  exists th, config d = [mkConfig 1 th] /\ In th validThemes.

Record Inv (d : Db) : Prop := {
  inv_task_ids_nodup : NoDup (map task_id (tasks d));
  inv_task_ids_seq : Forall (fun i => i <= tasks_seq d) (map task_id (tasks d));
  inv_config : valid_config d
}.

Definition keeps_inv (d d' : Db) : Prop := Inv d -> Inv d'.

(** A task, resp. a category, with this id is in the table. *)
Definition task_exists (d : Db) (id : Id) : Prop :=
  exists t, In t (tasks d) /\ id = Some (task_id t).

Definition category_exists (d : Db) (id : Id) : Prop :=
  exists c, In c (categories d) /\ id = Some (category_id c).

(** A small history used to exercise the theorems: one category, one task
    assigned to it. *)
Definition sample_requests : list Request :=
  [ POST_categories (Some "home");
    POST_tasks (Some "write") (Some "the report") (Some "Friday");
    POST_assign_category (Some 1) (Some 1) ].

Definition sample (fk : bool) : World :=
  snd (serve (Some "secret") sample_requests (start fk)).

(** What a partial update does to one column: a supplied value replaces the
    old one, an absent one keeps it. *)
Definition field_updated (v : Field) (old new : string) : Prop :=
  match v with
  | Some s => new = s
  | None => new = old
  end.

(** [t'] is [t] after updateTask(id, {name?, description?, eta?}). *)
Definition task_updated (id : Id) (name description eta : Field)
    (t t' : Task) : Prop :=
  (id = Some (task_id t) ->
     task_id t' = task_id t /\
     field_updated name (task_name t) (task_name t') /\
     field_updated description (task_description t) (task_description t') /\
     field_updated eta (task_eta t) (task_eta t') /\
     task_category_id t' = task_category_id t) /\
  (id <> Some (task_id t) -> t' = t).

(** [t'] is [t] after assignCategory(taskId, categoryId) went through. *)
Definition task_assigned (taskId categoryId : Id) (t t' : Task) : Prop :=
  (taskId = Some (task_id t) ->
     t' = mkTask (task_id t) (task_name t) (task_description t) (task_eta t)
                 categoryId) /\
  (taskId <> Some (task_id t) -> t' = t).

(** [c'] is [c] after the category [id] was renamed to [s]. *)
Definition category_renamed (id : Id) (s : string) (c c' : Category) : Prop :=
  (id = Some (category_id c) -> c' = mkCategory (category_id c) s) /\
  (id <> Some (category_id c) -> c' = c).

(** [t'] is [t] after the references to category [id] were cleared. *)
Definition reference_cleared (id : Id) (t t' : Task) : Prop :=
  (refers_to id t = true ->
     t' = mkTask (task_id t) (task_name t) (task_description t) (task_eta t)
                 None) /\
  (refers_to id t = false -> t' = t).

(** A body field that is missing or holds the empty string. *)
Definition missing_or_empty (v : Field) : Prop := v = None \/ v = Some "".

(** ** Vocabulary of the further properties *)

(** Category ids are unique and none is above the rowid counter. *)
Record CatInv (d : Db) : Prop := {
  cat_ids_nodup : NoDup (map category_id (categories d));
  cat_ids_seq :
    Forall (fun i => i <= categories_seq d) (map category_id (categories d))
}.

Definition keeps_cat_inv (d d' : Db) : Prop := CatInv d -> CatInv d'.

(** No task refers to a category that is not in the table. *)
Definition no_dangling (d : Db) : Prop :=
  forall t c, In t (tasks d) -> task_category_id t = Some c ->
    exists k, In k (categories d) /\ category_id k = c.

(** The category a single task refers to, if any, is among [cats]. *)
Definition no_dangling_task (cats : list Category) (t : Task) : Prop :=
  forall c, task_category_id t = Some c ->
    exists k, In k cats /\ category_id k = c.

(** The routes registered with [app.get]. *)
Definition is_get (r : Request) : bool :=
  match r with
  | GET_tasks | GET_categories | GET_category _ | GET_theme => true
  | _ => false
  end.

(** The name of the category a task refers to, if it refers to one that is
    in the table. *)
Definition category_of (cats : list Category) (t : Task) : option string :=
  option_map category_name
    (find (fun c => id_is (task_category_id t) (category_id c)) cats).

(** The one row a task should give in GET /tasks. *)
Definition task_row (cats : list Category) (t : Task) : TaskRow :=
  mkTaskRow (task_id t) (task_name t) (task_description t) (task_eta t)
            (category_of cats t).


(** * Properties *)

(** ** Relating the database before and after a computation *)

Section Frame.
Variable R : Db -> Db -> Prop.
Hypothesis HR : Preserved R.

Lemma respects_ret {A} (a : A) : respects R (ret a).
Proof. intro w; apply (R_refl R HR). Qed.

Lemma respects_throw {A} e : respects R (@throw A e).
Proof. intro w; apply (R_refl R HR). Qed.

Lemma respects_send code b : respects R (send code b).
Proof. intro w; apply (R_refl R HR). Qed.

Lemma respects_logged q : respects R (logged q).
Proof. intro w; apply (R_refl R HR). Qed.

Lemma respects_get_db : respects R get_db.
Proof. intro w; apply (R_refl R HR). Qed.

Lemma respects_get_foreign_keys : respects R get_foreign_keys.
Proof. intro w; apply (R_refl R HR). Qed.

Lemma respects_bind {A B} (m : M A) (k : A -> M B) :
  respects R m -> (forall a, respects R (k a)) -> respects R (bind m k).
Proof.
  intros Hm Hk w. unfold bind.
  specialize (Hm w). destruct (m w) as [[a | e] w1]; simpl in *.
  - eapply (R_trans R HR); [exact Hm | apply Hk].
  - exact Hm.
Qed.

Ltac frame :=
  repeat first
    [ apply respects_ret | apply respects_throw | apply respects_send
    | apply respects_logged | apply respects_get_db
    | apply respects_get_foreign_keys
    | assumption
    | apply respects_bind; [ | intro ]
    | match goal with
      | |- respects _ (if ?b then _ else _) => destruct b
      | |- respects _ (match ?x with _ => _ end) => destruct x
      end ].

Lemma respects_select_task id : respects R (select_task id).
Proof. unfold select_task; frame. Qed.

Lemma respects_select_category id : respects R (select_category id).
Proof. unfold select_category; frame. Qed.

Lemma respects_select_category_name id :
  respects R (select_category_name id).
Proof. unfold select_category_name; frame. Qed.

Lemma respects_select_tasks_join : respects R select_tasks_join.
Proof. unfold select_tasks_join; frame. Qed.

Lemma respects_select_categories : respects R select_categories.
Proof. unfold select_categories; frame. Qed.

Lemma respects_getTheme : respects R getTheme.
Proof. unfold getTheme; frame. Qed.

Ltac frame_route :=
  repeat first
    [ apply respects_select_task | apply respects_select_category
    | apply respects_select_category_name | apply respects_select_tasks_join
    | apply respects_select_categories | apply respects_getTheme
    | apply (R_insert_task R HR) | apply (R_insert_category R HR)
    | apply (R_update_task R HR) | apply (R_update_category R HR)
    | apply (R_delete_task R HR) | apply (R_delete_category R HR)
    | apply (R_null_out_category R HR) | apply (R_assign_category R HR)
    | apply respects_send
    | apply respects_bind; [ | intro ]
    | match goal with
      | |- respects _ (if ?b then _ else _) => destruct b
      | |- respects _ (match ?x with _ => _ end) => destruct x
      end ].

Lemma respects_setTheme newTheme : respects R (setTheme newTheme).
Proof.
  unfold setTheme.
  destruct (includes validThemes newTheme) eqn:Hin; simpl.
  - apply respects_bind; [ apply (R_update_theme R HR); exact Hin | intro ].
    apply respects_send.
  - apply respects_send.
Qed.

Lemma respects_route r : respects R (route r).
Proof.
  destruct r; simpl; try apply respects_setTheme;
    unfold listTasks, listCategories, getCategory, createTask,
      createCategory, updateTask, updateCategory, deleteTask,
      deleteCategory, assignCategory, readTheme;
    frame_route.
Qed.

Lemma respects_respond h : respects R h -> forall w,
  R (db w) (db (snd (respond h w))).
Proof.
  intros Hh w. unfold respond. specialize (Hh w).
  destruct (h w) as [[r | e] w1]; exact Hh.
Qed.

Lemma respects_app k c r w : R (db w) (db (snd (app k c r w))).
Proof.
  unfold app. apply respects_respond.
  unfold api_key_middleware.
  destruct (negb (truthy k)); [ apply respects_send | ].
  destruct (negb (field_eqb c k)); [ apply respects_send | ].
  apply respects_route.
Qed.

(** Across restarts as well, when the start-up script respects [R]. *)
Hypothesis HI : respects R initialize.

Lemma respects_step w w' : step w w' -> R (db w) (db w').
Proof.
  intros [w0 k c r | w0].
  - apply respects_app.
  - apply HI.
Qed.

Lemma respects_evolves w w' : evolves w w' -> R (db w) (db w').
Proof.
  induction 1 as [w0 | w1 w2 w3 _ IH Hstep].
  - apply (R_refl R HR).
  - eapply (R_trans R HR); [exact IH | apply respects_step; exact Hstep].
Qed.
End Frame.

(** ** Running a statement by hand *)

Ltac unfold_stmt :=
  unfold insert_task, insert_category, update_task, update_category,
    delete_task, delete_category, null_out_category, assign_category,
    update_theme, initialize, select_task, select_category,
    select_category_name, select_tasks_join, select_categories, getTheme,
    send, bind, logged, get_db, put_db, get_foreign_keys, ret, throw in *.

Ltac case_stmt :=
  repeat match goal with
         | |- context [match ?x with _ => _ end] => destruct x eqn:?; simpl
         end.

(** ** The rowid counters never go down *)

Lemma next_rowid_gt_seq seq ids : seq < next_rowid seq ids.
Proof. unfold next_rowid; lia. Qed.

Lemma max_rowid_ge ids i : In i ids -> i <= max_rowid ids.
Proof.
  induction ids as [| j ids IH]; simpl; [ tauto | ].
  intros [-> | H]; [ | specialize (IH H) ]; lia.
Qed.

Lemma next_rowid_gt_ids seq ids i : In i ids -> i < next_rowid seq ids.
Proof. intro H; apply max_rowid_ge in H; unfold next_rowid; lia. Qed.

Lemma seq_le_preserved : Preserved seq_le.
Proof.
  split.
  1: { intro d; split; lia. }
  1: { intros a b c [? ?] [? ?]; split; lia. }
  all: intros; intro w; unfold_stmt; simpl; case_stmt; unfold seq_le; simpl;
    pose proof (next_rowid_gt_seq (tasks_seq (db w))
                  (map task_id (tasks (db w))));
    pose proof (next_rowid_gt_seq (categories_seq (db w))
                  (map category_id (categories (db w))));
    lia.
Qed.

Lemma seq_le_initialize : respects seq_le initialize.
Proof. intro w; unfold_stmt; simpl; case_stmt; split; simpl; lia. Qed.

(** ** No request adds or removes a config row *)

Lemma map_config_id_update th l :
  map config_id
      (map (fun c => if config_id c =? 1 then mkConfig (config_id c) th else c) l)
  = map config_id l.
Proof.
  rewrite map_map. apply map_ext. intro c.
  destruct (config_id c =? 1); reflexivity.
Qed.

Lemma same_config_rows_preserved : Preserved same_config_rows.
Proof.
  split.
  1: { intro d; reflexivity. }
  1: { unfold same_config_rows; intros a b c H1 H2; congruence. }
  all: intros; intro w; unfold_stmt; simpl; case_stmt;
    unfold same_config_rows; simpl;
    try reflexivity; apply map_config_id_update.
Qed.

(** ** The invariant of reachable databases *)

Lemma map_id_map {A} (f : A -> Z) (g : A -> A) l :
  (forall a, f (g a) = f a) -> map f (map g l) = map f l.
Proof. intro H. rewrite map_map. apply map_ext. exact H. Qed.

Lemma in_map_filter {A B} (f : A -> B) p l b :
  In b (map f (filter p l)) -> In b (map f l).
Proof.
  rewrite !in_map_iff. intros (a & Ha & Hin).
  apply filter_In in Hin. exists a. tauto.
Qed.

Lemma NoDup_map_filter {A B} (f : A -> B) p l :
  NoDup (map f l) -> NoDup (map f (filter p l)).
Proof.
  induction l as [| a l IH]; simpl; intro H; [ exact H | ].
  inversion H as [| ? ? Hnotin Hnd]; subst.
  destruct (p a); simpl; [ constructor | ]; auto.
  intro Hin. apply Hnotin. eapply in_map_filter. exact Hin.
Qed.

Lemma Forall_map_filter {A B} (P : B -> Prop) (f : A -> B) p l :
  Forall P (map f l) -> Forall P (map f (filter p l)).
Proof.
  rewrite !Forall_forall. intros H b Hin. apply H.
  eapply in_map_filter. exact Hin.
Qed.

Lemma NoDup_snoc {A} (l : list A) a : NoDup l -> ~ In a l -> NoDup (l ++ [a]).
Proof.
  intros Hl Ha. induction Hl as [| b l Hb Hl IH]; simpl.
  - constructor; [ tauto | constructor ].
  - constructor.
    + rewrite in_app_iff. simpl. intros [H | [H | []]]; [ tauto | ].
      subst. apply Ha. left. reflexivity.
    + apply IH. intro H. apply Ha. right. exact H.
Qed.

Lemma includes_In l s : includes l (Some s) = true <-> In s l.
Proof.
  simpl. rewrite existsb_exists. split.
  - intros (x & Hx & Heq). apply String.eqb_eq in Heq. subst. exact Hx.
  - intro H. exists s. split; [ exact H | apply String.eqb_refl ].
Qed.

Lemma Inv_insert_task d n dsc e :
  Inv d ->
  Inv (mkDb (tasks d ++ [mkTask (next_rowid (tasks_seq d) (map task_id (tasks d)))
                            n dsc e None])
            (categories d) (config d)
            (next_rowid (tasks_seq d) (map task_id (tasks d)))
            (categories_seq d)).
Proof.
  intros [Hnd Hseq Hcfg]. split; simpl.
  - rewrite map_app. simpl. apply NoDup_snoc; [ exact Hnd | ].
    intro Hin. apply (next_rowid_gt_ids (tasks_seq d)) in Hin. lia.
  - rewrite map_app. apply Forall_app. split.
    + eapply Forall_impl; [ | exact Hseq ]. simpl. intros i Hi.
      pose proof (next_rowid_gt_seq (tasks_seq d) (map task_id (tasks d))).
      lia.
    + constructor; [ simpl; lia | constructor ].
  - exact Hcfg.
Qed.

Lemma Inv_tasks_same_ids d ts cs q :
  map task_id ts = map task_id (tasks d) ->
  Inv d -> Inv (mkDb ts cs (config d) (tasks_seq d) q).
Proof.
  intros Hids [Hnd Hseq Hcfg]. split; simpl; try rewrite Hids; assumption.
Qed.

Lemma Inv_delete_task d p :
  Inv d ->
  Inv (mkDb (filter p (tasks d)) (categories d) (config d)
            (tasks_seq d) (categories_seq d)).
Proof.
  intros [Hnd Hseq Hcfg]. split; simpl.
  - apply NoDup_map_filter. exact Hnd.
  - apply Forall_map_filter. exact Hseq.
  - exact Hcfg.
Qed.

Lemma Inv_update_theme d th :
  In th validThemes -> Inv d ->
  Inv (mkDb (tasks d) (categories d)
            (map (fun c => if config_id c =? 1
                           then mkConfig (config_id c) th else c) (config d))
            (tasks_seq d) (categories_seq d)).
Proof.
  intros Hth [Hnd Hseq (th0 & Hcfg & _)]. split; simpl; try assumption.
  exists th. rewrite Hcfg. simpl. split; [ reflexivity | exact Hth ].
Qed.

Lemma keeps_inv_preserved : Preserved keeps_inv.
Proof.
  split.
  1: { intros d H; exact H. }
  1: { unfold keeps_inv; intros a b c H1 H2 H; auto. }
  all: intros; intro w; unfold_stmt; simpl; case_stmt; unfold keeps_inv;
    simpl; try exact (fun H => H); subst;
    first
      [ apply Inv_insert_task
      | apply Inv_delete_task
      | apply Inv_update_theme; apply includes_In; assumption
      | apply Inv_tasks_same_ids;
        first
          [ reflexivity
          | apply map_id_map; intros ?; unfold update_task_row;
            match goal with
            | |- context [if ?b then _ else _] => destruct b
            end; reflexivity ] ].
Qed.

Lemma keeps_inv_initialize : respects keeps_inv initialize.
Proof.
  intro w. unfold_stmt. simpl. intros [Hnd Hseq (th & Hcfg & Hth)].
  rewrite Hcfg. simpl. split; simpl; try assumption.
  exists th. split; [ exact Hcfg | exact Hth ].
Qed.

Lemma Inv_start fk : Inv (db (start fk)).
Proof.
  split; simpl.
  - constructor.
  - constructor.
  - exists "Desert". split; [ reflexivity | simpl; tauto ].
Qed.

Lemma reachable_Inv w : reachable w -> Inv (db w).
Proof.
  intros [fk Hev].
  apply (respects_evolves keeps_inv keeps_inv_preserved keeps_inv_initialize
           _ _ Hev).
  apply Inv_start.
Qed.

Lemma evolves_seq_le w w' : evolves w w' -> seq_le (db w) (db w').
Proof.
  apply (respects_evolves seq_le seq_le_preserved seq_le_initialize).
Qed.

Lemma evolves_trans w1 w2 w3 : evolves w1 w2 -> evolves w2 w3 -> evolves w1 w3.
Proof.
  intros H12 H23. induction H23 as [| w2 w3 w4 _ IH Hstep]; [ exact H12 | ].
  eapply evolves_step; [ apply IH; exact H12 | exact Hstep ].
Qed.

(** ** Looking rows up *)

Lemma id_is_true id x : id_is id x = true <-> id = Some x.
Proof.
  destruct id as [z |]; simpl.
  - rewrite Z.eqb_eq. split; congruence.
  - split; discriminate.
Qed.

Lemma id_is_false id x : id_is id x = false <-> id <> Some x.
Proof.
  rewrite <- id_is_true. destruct (id_is id x); split; congruence.
Qed.

Lemma find_task_exists d id :
  task_exists d id ->
  exists t, find (fun t => id_is id (task_id t)) (tasks d) = Some t.
Proof.
  intros (t & Hin & Hid).
  destruct (find (fun t => id_is id (task_id t)) (tasks d)) as [t' |] eqn:E.
  - exists t'. reflexivity.
  - apply (find_none _ _ E) in Hin. apply id_is_false in Hin. contradiction.
Qed.

Lemma find_task_absent d id :
  ~ task_exists d id ->
  find (fun t => id_is id (task_id t)) (tasks d) = None.
Proof.
  intro H.
  destruct (find (fun t => id_is id (task_id t)) (tasks d)) as [t |] eqn:E;
    [ | reflexivity ].
  apply find_some in E. destruct E as [Hin Hid]. apply id_is_true in Hid.
  exfalso. apply H. exists t. auto.
Qed.

Lemma find_category_exists d id :
  category_exists d id ->
  exists c, find (fun c => id_is id (category_id c)) (categories d) = Some c.
Proof.
  intros (c & Hin & Hid).
  destruct (find (fun c => id_is id (category_id c)) (categories d))
    as [c' |] eqn:E.
  - exists c'. reflexivity.
  - apply (find_none _ _ E) in Hin. apply id_is_false in Hin. contradiction.
Qed.

Lemma find_category_absent d id :
  ~ category_exists d id ->
  find (fun c => id_is id (category_id c)) (categories d) = None.
Proof.
  intro H.
  destruct (find (fun c => id_is id (category_id c)) (categories d))
    as [c |] eqn:E; [ | reflexivity ].
  apply find_some in E. destruct E as [Hin Hid]. apply id_is_true in Hid.
  exfalso. apply H. exists c. auto.
Qed.

Lemma existsb_category_exists d id :
  category_exists d id ->
  existsb (fun c => id_is id (category_id c)) (categories d) = true.
Proof.
  intros (c & Hin & Hid). apply existsb_exists. exists c.
  split; [ exact Hin | apply id_is_true; exact Hid ].
Qed.

Lemma Forall2_map_self {A} (R : A -> A -> Prop) (g : A -> A) l :
  (forall a, R a (g a)) -> Forall2 R l (map g l).
Proof. intro H. induction l; simpl; constructor; auto. Qed.

Lemma length_filter_out {A} (f : A -> Z) (l : list A) a :
  NoDup (map f l) -> In a l ->
  List.length l = S (List.length (filter (fun t => negb (f a =? f t)) l)).
Proof.
  induction l as [| b l IH]; simpl; intros Hnd Hin; [ contradiction | ].
  inversion Hnd as [| ? ? Hnotin Hnd']; subst.
  destruct Hin as [-> | Hin].
  - rewrite Z.eqb_refl. simpl. f_equal.
    clear IH Hnd' Hnd. induction l as [| c l IHl]; simpl; [ reflexivity | ].
    destruct (f a =? f c) eqn:E; simpl.
    + apply Z.eqb_eq in E. exfalso. apply Hnotin. left. symmetry. exact E.
    + f_equal. apply IHl. intro H. apply Hnotin. right. exact H.
  - destruct (f a =? f b) eqn:E; simpl.
    + apply Z.eqb_eq in E. exfalso. apply Hnotin. rewrite <- E.
      apply in_map. exact Hin.
    + f_equal. apply IH; assumption.
Qed.

Ltac unfold_handler :=
  unfold call, respond, listTasks, listCategories, getCategory, createTask,
    createCategory, updateTask, updateCategory, deleteTask, deleteCategory,
    assignCategory, setTheme, readTheme;
  unfold_stmt; simpl.

(** ** deleteTask *)

(** C9: deleteTask(id) answers 404 "Task not found." and leaves the database
    as it was when no task has that id; otherwise it answers 200, the tasks
    left are exactly the tasks with another id, and categories, config and
    rowid counters are untouched.  In a reachable state, where ids are
    unique, exactly one row goes. *)
Theorem deleteTask_frame (w : World) (id : Id) :
  let r := fst (call (deleteTask id) w) in
  let w' := snd (call (deleteTask id) w) in
  (~ task_exists (db w) id ->
     r = mkResponse 404 (Message "Task not found.") /\ db w' = db w) /\
  (task_exists (db w) id ->
     r = mkResponse 200 (Message "Task deleted successfully!") /\
     (forall t, In t (tasks (db w')) <->
                In t (tasks (db w)) /\ id <> Some (task_id t)) /\
     categories (db w') = categories (db w) /\
     config (db w') = config (db w) /\
     tasks_seq (db w') = tasks_seq (db w) /\
     categories_seq (db w') = categories_seq (db w) /\
     (reachable w ->
        List.length (tasks (db w)) = S (List.length (tasks (db w'))))).
Proof.
  split.
  - intro Habs. apply find_task_absent in Habs.
    unfold_handler. rewrite Habs. simpl. split; reflexivity.
  - intro Hex. pose proof Hex as (t0 & Hin0 & Hid0).
    apply find_task_exists in Hex. destruct Hex as [t1 Hfind].
    unfold_handler. rewrite Hfind. simpl. repeat split; try reflexivity.
    + apply filter_In in H. apply H.
    + apply filter_In in H. destruct H as [_ H].
      apply negb_true_iff, id_is_false in H. exact H.
    + intros [Hin Hne]. apply filter_In. split; [ exact Hin | ].
      apply negb_true_iff, id_is_false. exact Hne.
    + intro Hreach. apply reachable_Inv in Hreach.
      destruct Hreach as [Hnd _ _]. subst id. simpl.
      apply (length_filter_out task_id); assumption.
Qed.

Lemma serve_evolves key rs w : evolves w (snd (serve key rs w)).
Proof.
  revert w. induction rs as [| r rs IH]; intro w; simpl.
  - apply evolves_refl.
  - destruct (app key key r w) as [resp w1] eqn:E1.
    specialize (IH w1).
    destruct (serve key rs w1) as [resps w2]. simpl in *.
    eapply evolves_trans; [ | exact IH ].
    eapply evolves_step; [ apply evolves_refl | ].
    replace w1 with (snd (app key key r w)) by (rewrite E1; reflexivity).
    apply step_request.
Qed.

Lemma serve_reachable key rs fk : reachable (snd (serve key rs (start fk))).
Proof. exists fk. apply serve_evolves. Qed.

(** Deciding [task_exists] and [category_exists] in a concrete database. *)
Ltac row_present :=
  eexists; split; [ vm_compute; left; reflexivity | reflexivity ].

Ltac row_absent :=
  let Hin := fresh in let Hid := fresh in
  intros (? & Hin & Hid); vm_compute in Hin;
  repeat (destruct Hin as [<- | Hin]; [ discriminate Hid | ]);
  exact Hin.

Lemma deleteTask_frame_witness :
  (fst (call (deleteTask (Some 7)) (sample true))
     = mkResponse 404 (Message "Task not found.")) /\
  (fst (call (deleteTask (Some 1)) (sample true))
     = mkResponse 200 (Message "Task deleted successfully!") /\
   List.length (tasks (db (sample true)))
     = S (List.length (tasks (db (snd (call (deleteTask (Some 1))
                                            (sample true))))))).
Proof.
  pose proof (deleteTask_frame (sample true) (Some 7)) as H7.
  pose proof (deleteTask_frame (sample true) (Some 1)) as H1.
  cbv zeta in H7, H1. destruct H7 as [Habsent _]. destruct H1 as [_ Hpresent].
  split.
  - apply Habsent. row_absent.
  - destruct Hpresent as (Hr & _ & _ & _ & _ & _ & Hlen); [ row_present | ].
    split; [ exact Hr | apply Hlen; apply serve_reachable ].
Defined.

(** ** updateTask *)

(** C4: for an existing task id, updateTask answers 200 and the tasks table
    is the old one row for row, where the row with that id has each supplied
    field (the empty string included) replaced and each absent field, its id
    and its category kept, and every other row is untouched; categories and
    config are untouched.  For an absent id it answers 404 "Task not found."
    and the database is as it was. *)
Theorem updateTask_partial (w : World) (id : Id)
    (name description eta : Field) :
  let r := fst (call (updateTask id name description eta) w) in
  let w' := snd (call (updateTask id name description eta) w) in
  (task_exists (db w) id ->
     r = mkResponse 200 (Message "Task updated successfully!") /\
     Forall2 (task_updated id name description eta)
             (tasks (db w)) (tasks (db w')) /\
     categories (db w') = categories (db w) /\
     config (db w') = config (db w)) /\
  (~ task_exists (db w) id ->
     r = mkResponse 404 (Message "Task not found.") /\ db w' = db w).
Proof.
  split.
  - intro Hex. apply find_task_exists in Hex. destruct Hex as [t1 Hfind].
    unfold_handler. rewrite Hfind. simpl. repeat split.
    apply Forall2_map_self. intro t. unfold task_updated, update_task_row.
    destruct (id_is id (task_id t)) eqn:E.
    + split; [ | intro Hne; apply id_is_true in E; contradiction ].
      intros _. simpl. unfold field_updated, coalesce.
      destruct name, description, eta; repeat split.
    + apply id_is_false in E. split; [ intro; contradiction | reflexivity ].
  - intro Habs. apply find_task_absent in Habs.
    unfold_handler. rewrite Habs. simpl. split; reflexivity.
Qed.

Lemma updateTask_partial_witness :
  (fst (call (updateTask (Some 1) None None (Some "tomorrow")) (sample true))
     = mkResponse 200 (Message "Task updated successfully!") /\
   Forall2 (task_updated (Some 1) None None (Some "tomorrow"))
     (tasks (db (sample true)))
     (tasks (db (snd (call (updateTask (Some 1) None None (Some "tomorrow"))
                           (sample true)))))) /\
  (fst (call (updateTask (Some 7) (Some "") None None) (sample true))
     = mkResponse 404 (Message "Task not found.")).
Proof.
  pose proof (updateTask_partial (sample true) (Some 1) None None
                (Some "tomorrow")) as H1.
  pose proof (updateTask_partial (sample true) (Some 7) (Some "") None None)
    as H7.
  cbv zeta in H1, H7. destruct H1 as [Hpresent _]. destruct H7 as [_ Habsent].
  split.
  - destruct Hpresent as (Hr & Hrows & _); [ row_present | ].
    split; assumption.
  - apply Habsent. row_absent.
Defined.

(** ** assignCategory *)

Lemma existsb_category_id d c :
  category_exists d (Some c) ->
  existsb (fun k => category_id k =? c) (categories d) = true.
Proof.
  intros (k & Hin & Hid). apply existsb_exists. exists k.
  split; [ exact Hin | ]. apply Z.eqb_eq. congruence.
Qed.

Lemma no_fk_violation fk b d categoryId :
  category_exists d categoryId ->
  fk && b && match categoryId with
             | Some c => negb (existsb (fun k => category_id k =? c) (categories d))
             | None => false
             end = false.
Proof.
  intro Hex. destruct categoryId as [c |].
  - rewrite (existsb_category_id d c Hex). apply andb_false_r.
  - apply andb_false_r.
Qed.

(** C5: assignCategory answers 404 "Crud! Task not found." when the task is
    absent and 404 "Category not found." when the task exists and the
    category is absent, in both cases leaving the database as it was; when
    both exist it answers 200 and sets the category_id of that task, and of
    no other, to categoryId.  Whatever the arguments, a task that carries a
    category id afterwards either is a row that was there unchanged or
    refers to a category in the table. *)
Theorem assignCategory_checked (w : World) (taskId categoryId : Id) :
  let r := fst (call (assignCategory taskId categoryId) w) in
  let w' := snd (call (assignCategory taskId categoryId) w) in
  (~ task_exists (db w) taskId ->
     r = mkResponse 404 (Message "Crud! Task not found.") /\ db w' = db w) /\
  (task_exists (db w) taskId -> ~ category_exists (db w) categoryId ->
     r = mkResponse 404 (Message "Category not found.") /\ db w' = db w) /\
  (task_exists (db w) taskId -> category_exists (db w) categoryId ->
     r = mkResponse 200 (Message "Aye aye, category assigned successfully!") /\
     Forall2 (task_assigned taskId categoryId) (tasks (db w)) (tasks (db w')) /\
     categories (db w') = categories (db w) /\
     config (db w') = config (db w)) /\
  (forall t' c, In t' (tasks (db w')) -> task_category_id t' = Some c ->
     In t' (tasks (db w)) \/ category_exists (db w') (Some c)).
Proof.
  assert (Hmap : forall t,
            task_assigned taskId categoryId t
              (if id_is taskId (task_id t)
               then mkTask (task_id t) (task_name t) (task_description t)
                           (task_eta t) categoryId
               else t)).
  { intro t. unfold task_assigned. destruct (id_is taskId (task_id t)) eqn:E.
    - apply id_is_true in E. split; [ reflexivity | contradiction ].
    - apply id_is_false in E. split; [ contradiction | reflexivity ]. }
  repeat split.
  - apply find_task_absent in H. unfold_handler. rewrite H. reflexivity.
  - apply find_task_absent in H. unfold_handler. rewrite H. reflexivity.
  - apply find_task_exists in H. destruct H as [t Ht].
    apply find_category_absent in H0.
    unfold_handler. rewrite Ht, H0. reflexivity.
  - apply find_task_exists in H. destruct H as [t Ht].
    apply find_category_absent in H0.
    unfold_handler. rewrite Ht, H0. reflexivity.
  - apply find_task_exists in H. destruct H as [t Ht].
    pose proof (find_category_exists _ _ H0) as [k Hk].
    unfold_handler. rewrite Ht, Hk. simpl.
    rewrite (no_fk_violation _ _ _ _ H0). reflexivity.
  - apply find_task_exists in H. destruct H as [t Ht].
    pose proof (find_category_exists _ _ H0) as [k Hk].
    unfold_handler. rewrite Ht, Hk. simpl.
    rewrite (no_fk_violation _ _ _ _ H0). simpl.
    apply Forall2_map_self. exact Hmap.
  - apply find_task_exists in H. destruct H as [t Ht].
    pose proof (find_category_exists _ _ H0) as [k Hk].
    unfold_handler. rewrite Ht, Hk. simpl.
    rewrite (no_fk_violation _ _ _ _ H0). reflexivity.
  - apply find_task_exists in H. destruct H as [t Ht].
    pose proof (find_category_exists _ _ H0) as [k Hk].
    unfold_handler. rewrite Ht, Hk. simpl.
    rewrite (no_fk_violation _ _ _ _ H0). reflexivity.
  - intros t' c. unfold_handler.
    destruct (find (fun t => id_is taskId (task_id t)) (tasks (db w)))
      as [t |] eqn:Ht; simpl; [ | tauto ].
    destruct (find (fun k => id_is categoryId (category_id k))
                (categories (db w))) as [k |] eqn:Hk; simpl; [ | tauto ].
    assert (Hex : category_exists (db w) categoryId).
    { apply find_some in Hk. destruct Hk as [Hin Hid].
      apply id_is_true in Hid. exists k. auto. }
    rewrite (no_fk_violation _ _ _ _ Hex). simpl.
    intros Hin Hc. apply in_map_iff in Hin. destruct Hin as (t0 & <- & Hin0).
    destruct (id_is taskId (task_id t0)); [ right | left; exact Hin0 ].
    simpl in Hc. subst categoryId. exact Hex.
Qed.

Lemma assignCategory_checked_witness :
  (fst (call (assignCategory (Some 7) (Some 1)) (sample true))
     = mkResponse 404 (Message "Crud! Task not found.")) /\
  (fst (call (assignCategory (Some 1) (Some 7)) (sample true))
     = mkResponse 404 (Message "Category not found.") /\
   db (snd (call (assignCategory (Some 1) (Some 7)) (sample true)))
     = db (sample true)) /\
  (fst (call (assignCategory (Some 1) (Some 1)) (sample true))
     = mkResponse 200 (Message "Aye aye, category assigned successfully!")).
Proof.
  pose proof (assignCategory_checked (sample true) (Some 7) (Some 1)) as H71.
  pose proof (assignCategory_checked (sample true) (Some 1) (Some 7)) as H17.
  pose proof (assignCategory_checked (sample true) (Some 1) (Some 1)) as H11.
  cbv zeta in H71, H17, H11.
  destruct H71 as (Hnotask & _). destruct H17 as (_ & Hnocat & _).
  destruct H11 as (_ & _ & Hboth & _).
  split; [ | split ].
  - apply Hnotask. row_absent.
  - apply Hnocat; [ row_present | row_absent ].
  - apply Hboth; row_present.
Defined.

(** C10: when neither the task nor the category exists, assignCategory
    answers with the task message, not with the category message: the task
    is checked first. *)
Theorem assignCategory_task_first (w : World) (taskId categoryId : Id) :
  ~ task_exists (db w) taskId ->
  ~ category_exists (db w) categoryId ->
  fst (call (assignCategory taskId categoryId) w)
    = mkResponse 404 (Message "Crud! Task not found.") /\
  body (fst (call (assignCategory taskId categoryId) w))
    <> Message "Category not found.".
Proof.
  intros Ht _. apply find_task_absent in Ht.
  unfold_handler. rewrite Ht. simpl. split; [ reflexivity | discriminate ].
Qed.

Lemma assignCategory_task_first_witness :
  fst (call (assignCategory (Some 7) None) (sample true))
    = mkResponse 404 (Message "Crud! Task not found.").
Proof.
  apply (assignCategory_task_first (sample true) (Some 7) None); row_absent.
Defined.

(** ** updateCategory *)

(** C8, as stated, fails: with the category present and no name in the
    body, the answer is 500, not 200, and nothing is written. *)
Lemma updateCategory_absent_name_rejected :
  category_exists (db (sample true)) (Some 1) /\
  call (updateCategory (Some 1) None) (sample true)
    = (mkResponse 500 (ErrorPage NotNullConstraint),
       mkWorld (db (sample true))
               (sql_log (sample true)
                  ++ [SqlSelectCategory (Some 1);
                      SqlUpdateCategory None (Some 1)])
               true) /\
  status (fst (call (updateCategory (Some 1) None) (sample true))) <> 200.
Proof.
  split; [ row_present | ]. split; [ vm_compute; reflexivity | ].
  vm_compute. discriminate.
Qed.

(** C8, amended: updateCategory answers 404 "Category not found." when no
    category has that id; when one has and a name is supplied, whatever
    string it is, the empty one included, it answers 200 and that category,
    and no other row, carries the new name; when one has and the name is
    absent, the NOT NULL column rejects the write: the answer is 500 and the
    database is as it was. *)
Theorem updateCategory_lax (w : World) (id : Id) (name : Field) :
  let r := fst (call (updateCategory id name) w) in
  let w' := snd (call (updateCategory id name) w) in
  (~ category_exists (db w) id ->
     r = mkResponse 404 (Message "Category not found.") /\ db w' = db w) /\
  (category_exists (db w) id -> forall s, name = Some s ->
     r = mkResponse 200 (Message "Category updated successfully!") /\
     Forall2 (category_renamed id s) (categories (db w)) (categories (db w')) /\
     tasks (db w') = tasks (db w) /\
     config (db w') = config (db w)) /\
  (category_exists (db w) id -> name = None ->
     r = mkResponse 500 (ErrorPage NotNullConstraint) /\ db w' = db w).
Proof.
  split; [ | split ].
  - intro Habs. apply find_category_absent in Habs.
    unfold_handler. rewrite Habs. simpl. split; reflexivity.
  - intros Hex s ->. apply find_category_exists in Hex.
    destruct Hex as [k Hk]. unfold_handler. rewrite Hk. simpl.
    repeat split. apply Forall2_map_self. intro c. unfold category_renamed.
    destruct (id_is id (category_id c)) eqn:E.
    + apply id_is_true in E. split; [ reflexivity | contradiction ].
    + apply id_is_false in E. split; [ contradiction | reflexivity ].
  - intros Hex ->. pose proof (existsb_category_exists _ _ Hex) as Hb.
    apply find_category_exists in Hex. destruct Hex as [k Hk].
    unfold_handler. rewrite Hk. simpl. rewrite Hb. simpl.
    split; reflexivity.
Qed.

Lemma updateCategory_lax_witness :
  (fst (call (updateCategory (Some 7) (Some "x")) (sample true))
     = mkResponse 404 (Message "Category not found.")) /\
  (fst (call (updateCategory (Some 1) (Some "")) (sample true))
     = mkResponse 200 (Message "Category updated successfully!") /\
   Forall2 (category_renamed (Some 1) "")
     (categories (db (sample true)))
     (categories (db (snd (call (updateCategory (Some 1) (Some ""))
                                (sample true)))))) /\
  (fst (call (updateCategory (Some 1) None) (sample true))
     = mkResponse 500 (ErrorPage NotNullConstraint)).
Proof.
  pose proof (updateCategory_lax (sample true) (Some 7) (Some "x")) as H7.
  pose proof (updateCategory_lax (sample true) (Some 1) (Some "")) as H1.
  pose proof (updateCategory_lax (sample true) (Some 1) None) as H0.
  cbv zeta in H7, H1, H0.
  destruct H7 as (Habsent & _). destruct H1 as (_ & Hset & _).
  destruct H0 as (_ & _ & Hnull).
  split; [ | split ].
  - apply Habsent. row_absent.
  - destruct (Hset ltac:(row_present) "" eq_refl) as (Hr & Hrows & _).
    split; assumption.
  - apply Hnull; [ row_present | reflexivity ].
Defined.

(** ** deleteCategory *)

(** For an id no category has: 404, and nothing changes. *)
Lemma deleteCategory_absent (w : World) (id : Id) :
  ~ category_exists (db w) id ->
  fst (call (deleteCategory id) w)
    = mkResponse 404 (Message "Category not found.") /\
  db (snd (call (deleteCategory id) w)) = db w.
Proof.
  intro Habs. apply find_category_absent in Habs.
  unfold_handler. rewrite Habs. simpl. split; reflexivity.
Qed.

(** The cascade goes through when the DELETE does: with foreign keys not
    enforced, or with no task referring to the category. *)
Lemma deleteCategory_cascade (w : World) (id : Id) :
  category_exists (db w) id ->
  foreign_keys w = false \/ existsb (refers_to id) (tasks (db w)) = false ->
  let r := fst (call (deleteCategory id) w) in
  let w' := snd (call (deleteCategory id) w) in
  r = mkResponse 200 (Message "Category deleted successfully!") /\
  (forall c, In c (categories (db w')) <->
             In c (categories (db w)) /\ id <> Some (category_id c)) /\
  Forall2 (reference_cleared id) (tasks (db w)) (tasks (db w')) /\
  (forall t', In t' (tasks (db w')) -> refers_to id t' = false) /\
  config (db w') = config (db w).
Proof.
  intros Hex Hok.
  assert (Hcond : foreign_keys w
                  && existsb (fun c => id_is id (category_id c))
                       (categories (db w))
                  && existsb (refers_to id) (tasks (db w)) = false).
  { destruct Hok as [-> | ->]; [ reflexivity | apply andb_false_r ]. }
  apply find_category_exists in Hex. destruct Hex as [k Hk].
  unfold_handler. rewrite Hk. simpl. rewrite Hcond. simpl.
  split; [ reflexivity | ]. split; [ | split; [ | split ] ].
  - intro c. rewrite filter_In, negb_true_iff, id_is_false. reflexivity.
  - apply Forall2_map_self. intro t. unfold reference_cleared.
    destruct (refers_to id t); split; congruence.
  - intros t' Hin. apply in_map_iff in Hin. destruct Hin as (t & <- & _).
    destruct (refers_to id t) eqn:E; [ reflexivity | exact E ].
  - reflexivity.
Qed.

(** With foreign keys enforced and a task referring to the category, the
    DELETE is rejected: neither the category nor the references go. *)
Lemma deleteCategory_rejected (w : World) (id : Id) :
  category_exists (db w) id ->
  foreign_keys w = true ->
  existsb (refers_to id) (tasks (db w)) = true ->
  fst (call (deleteCategory id) w)
    = mkResponse 500 (ErrorPage ForeignKeyConstraint) /\
  db (snd (call (deleteCategory id) w)) = db w.
Proof.
  intros Hex Hfk Href. pose proof (existsb_category_exists _ _ Hex) as Hb.
  apply find_category_exists in Hex. destruct Hex as [k Hk].
  unfold_handler. rewrite Hk. simpl. rewrite Hfk, Hb, Href. simpl.
  split; reflexivity.
Qed.

(** C1, on the connection as the source opens it: a category is created, a
    task is created and assigned to it, and the category is deleted.  The
    DELETE request answers 500; the category is still listed and the task
    still carries its name. *)
Theorem deleteCategory_referenced_fails :
  fst (serve (Some "secret")
         (sample_requests ++ [DELETE_category (Some 1); GET_categories; GET_tasks])
         (start default_foreign_keys))
  = [ mkResponse 201 (CategoryCreated "Category created successfully!" 1);
      mkResponse 201 (TaskCreated "Task created successfully!" 1);
      mkResponse 200 (Message "Aye aye, category assigned successfully!");
      mkResponse 500 (ErrorPage ForeignKeyConstraint);
      mkResponse 200 (CategoryList [mkCategory 1 "home"]);
      mkResponse 200
        (TaskList [mkTaskRow 1 "write" "the report" "Friday" (Some "home")]) ].
Proof. vm_compute. reflexivity. Qed.

(** ** createTask *)

Lemma truthy_false v : truthy v = false <-> missing_or_empty v.
Proof.
  unfold missing_or_empty. destruct v as [s |]; simpl.
  - rewrite negb_false_iff, String.eqb_eq. split.
    + intros ->. right. reflexivity.
    + intros [H | H]; congruence.
  - split; auto.
Qed.

Lemma truthy_true s : truthy (Some s) = true <-> s <> "".
Proof. simpl. rewrite negb_true_iff. apply String.eqb_neq. Qed.

(** C3: createTask answers 400 without running a statement, so without
    inserting a row, as soon as one of name, description, eta is missing or
    empty.  When the three are non-empty it answers 201 with a generated id,
    the tasks table gains exactly one row, with those fields and a null
    category_id, appended to the rows it had, and the id is the id of no
    task of any earlier state of the service. *)
Theorem createTask_validated (w : World) (name description eta : Field) :
  let r := fst (call (createTask name description eta) w) in
  let w' := snd (call (createTask name description eta) w) in
  (missing_or_empty name \/ missing_or_empty description \/
   missing_or_empty eta ->
     r = mkResponse 400
           (Message "Missing required fields: name, description, eta.") /\
     w' = w) /\
  (forall n d e,
     name = Some n -> description = Some d -> eta = Some e ->
     n <> "" -> d <> "" -> e <> "" ->
     exists id,
       r = mkResponse 201 (TaskCreated "Task created successfully!" id) /\
       tasks (db w') = (tasks (db w) ++ [mkTask id n d e None])%list /\
       categories (db w') = categories (db w) /\
       config (db w') = config (db w) /\
       (forall w0 t, reachable w0 -> evolves w0 w ->
          In t (tasks (db w0)) -> task_id t <> id)).
Proof.
  split.
  - intro Hmiss.
    assert (Hcond : negb (truthy name) || negb (truthy description)
                    || negb (truthy eta) = true).
    { rewrite !orb_true_iff, !negb_true_iff, !truthy_false. tauto. }
    unfold_handler. rewrite Hcond. simpl. split; reflexivity.
  - intros n d e -> -> -> Hn Hd He.
    apply truthy_true in Hn, Hd, He.
    exists (next_rowid (tasks_seq (db w)) (map task_id (tasks (db w)))).
    unfold_handler. simpl in Hn, Hd, He. rewrite Hn, Hd, He. simpl.
    repeat split.
    intros w0 t Hreach Hev Hin Heq.
    apply reachable_Inv in Hreach. destruct Hreach as [_ Hseq _].
    rewrite Forall_forall in Hseq.
    specialize (Hseq (task_id t) (in_map task_id _ _ Hin)). simpl in Hseq.
    apply evolves_seq_le in Hev. destruct Hev as [Hle _].
    pose proof (next_rowid_gt_seq (tasks_seq (db w))
                  (map task_id (tasks (db w)))).
    lia.
Qed.

Lemma createTask_validated_witness :
  (call (createTask (Some "write") None (Some "")) (sample true)
     = (mkResponse 400
          (Message "Missing required fields: name, description, eta."),
        sample true)) /\
  (exists id,
     fst (call (createTask (Some "call") (Some "the bank") (Some "today"))
               (sample true))
       = mkResponse 201 (TaskCreated "Task created successfully!" id) /\
     forall t, In t (tasks (db (sample true))) -> task_id t <> id).
Proof.
  pose proof (createTask_validated (sample true) (Some "write") None (Some ""))
    as Hbad.
  pose proof (createTask_validated (sample true) (Some "call")
                (Some "the bank") (Some "today")) as Hgood.
  cbv zeta in Hbad, Hgood.
  destruct Hbad as [Hbad _]. destruct Hgood as [_ Hgood].
  split.
  - destruct Hbad as [Hr Hw]; [ right; left; left; reflexivity | ].
    rewrite (surjective_pairing (call _ _)). rewrite Hr, Hw. reflexivity.
  - destruct (Hgood "call" "the bank" "today" eq_refl eq_refl eq_refl)
      as (id & Hr & _ & _ & _ & Hfresh); try discriminate.
    exists id. split; [ exact Hr | ].
    intros t Hin. apply (Hfresh (sample true) t);
      [ apply serve_reachable | apply evolves_refl | exact Hin ].
Defined.

(** ** The theme *)

(** C2: in every reachable state the config table is exactly one row, with
    id 1 and a theme among Desert, Oasis, Forest, Snow; no request, in any
    state, adds or removes a config row; setTheme with anything else than
    one of the four themes answers 400 "Invalid theme." and changes nothing. *)
Theorem config_singleton :
  (forall w, reachable w -> valid_config (db w)) /\
  (forall serverApiKey clientApiKey r w,
     map config_id (config (db (snd (app serverApiKey clientApiKey r w))))
     = map config_id (config (db w))) /\
  (forall t w,
     ~ (exists s, t = Some s /\ In s validThemes) ->
     call (setTheme t) w = (mkResponse 400 (Message "Invalid theme."), w)).
Proof.
  split; [ | split ].
  - intros w Hreach. apply reachable_Inv in Hreach. apply Hreach.
  - intros k c r w.
    apply (respects_app same_config_rows same_config_rows_preserved).
  - intros t w Hout.
    assert (Hinc : includes validThemes t = false).
    { destruct t as [s |]; [ | reflexivity ].
      destruct (includes validThemes (Some s)) eqn:E; [ | reflexivity ].
      apply includes_In in E. exfalso. apply Hout. exists s. auto. }
    unfold_handler. rewrite Hinc. reflexivity.
Qed.

Lemma config_singleton_witness :
  valid_config (db (sample true)) /\
  call (setTheme (Some "Purple")) (sample true)
    = (mkResponse 400 (Message "Invalid theme."), sample true).
Proof.
  destruct config_singleton as (Hinv & _ & Hbad). split.
  - apply Hinv. apply serve_reachable.
  - apply Hbad. intros (s & Hs & Hin). injection Hs as <-.
    vm_compute in Hin.
    repeat (destruct Hin as [Hin | Hin]; [ discriminate Hin | ]).
    destruct Hin.
Defined.

(** C6: in a reachable state, for each of the four themes, setTheme answers
    200 and the GET /theme that follows answers 200 with exactly that
    theme. *)
Theorem setTheme_getTheme (w : World) (t : string) :
  reachable w ->
  In t validThemes ->
  let w1 := snd (call (setTheme (Some t)) w) in
  status (fst (call (setTheme (Some t)) w)) = 200 /\
  fst (getTheme w1) = Ok t /\
  fst (call readTheme w1) = mkResponse 200 (Theme t).
Proof.
  intros Hreach Hin. apply reachable_Inv in Hreach.
  destruct Hreach as [_ _ (th & Hcfg & _)].
  apply includes_In in Hin.
  unfold_handler. simpl in Hin. rewrite Hin. simpl. rewrite Hcfg. simpl.
  repeat split.
Qed.

Lemma setTheme_getTheme_witness :
  status (fst (call (setTheme (Some "Forest")) (sample true))) = 200 /\
  fst (call readTheme (snd (call (setTheme (Some "Forest")) (sample true))))
    = mkResponse 200 (Theme "Forest").
Proof.
  pose proof (setTheme_getTheme (sample true) "Forest") as H. cbv zeta in H.
  destruct H as (Hset & _ & Hget).
  - apply serve_reachable.
  - vm_compute. tauto.
  - split; assumption.
Defined.

(** ** The api-key middleware *)

(** C7: whatever the request, when the server key is not configured (unset
    or empty) the answer is 500, and when it is configured and the api-key
    header differs from it the answer is 403; in both cases the process is
    exactly as before: no statement was run.  Put the other way round, a
    request that ran a statement came with the configured key. *)
Theorem api_key_gate (serverApiKey clientApiKey : Field) (r : Request)
    (w : World) :
  (missing_or_empty serverApiKey ->
     app serverApiKey clientApiKey r w
       = (mkResponse 500 (Message "Server configuration error."), w)) /\
  (~ missing_or_empty serverApiKey -> clientApiKey <> serverApiKey ->
     app serverApiKey clientApiKey r w
       = (mkResponse 403 (Message "Forbidden: Invalid API Key."), w)) /\
  (sql_log (snd (app serverApiKey clientApiKey r w)) <> sql_log w ->
     ~ missing_or_empty serverApiKey /\ clientApiKey = serverApiKey).
Proof.
  assert (Heqb : forall a b, field_eqb a b = true <-> a = b).
  { intros [x |] [y |]; simpl; try (split; congruence).
    rewrite String.eqb_eq. split; congruence. }
  unfold app, api_key_middleware, respond, send, ret.
  destruct (truthy serverApiKey) eqn:Hk; simpl.
  - assert (Hconf : ~ missing_or_empty serverApiKey).
    { rewrite <- truthy_false. congruence. }
    destruct (field_eqb clientApiKey serverApiKey) eqn:Hc; simpl.
    + apply Heqb in Hc. repeat split; tauto.
    + assert (clientApiKey <> serverApiKey).
      { intro Heq. apply Heqb in Heq. congruence. }
      repeat split; tauto.
  - apply truthy_false in Hk. repeat split; tauto.
Qed.

Lemma api_key_gate_witness :
  app None (Some "secret") (DELETE_task (Some 1)) (sample true)
    = (mkResponse 500 (Message "Server configuration error."), sample true) /\
  app (Some "secret") None (DELETE_task (Some 1)) (sample true)
    = (mkResponse 403 (Message "Forbidden: Invalid API Key."), sample true).
Proof.
  split.
  - apply (api_key_gate None (Some "secret") (DELETE_task (Some 1))
             (sample true)).
    left. reflexivity.
  - apply (api_key_gate (Some "secret") None (DELETE_task (Some 1))
             (sample true)).
    + intros [H | H]; discriminate H.
    + discriminate.
Defined.

(** * Further properties *)

(** ** Category ids *)

Lemma CatInv_insert_category d n :
  CatInv d ->
  CatInv (mkDb (tasks d)
            (categories d
               ++ [mkCategory (next_rowid (categories_seq d)
                                 (map category_id (categories d))) n])
            (config d) (tasks_seq d)
            (next_rowid (categories_seq d) (map category_id (categories d)))).
Proof.
  intros [Hnd Hseq]. split; simpl.
  - rewrite map_app. simpl. apply NoDup_snoc; [ exact Hnd | ].
    intro Hin. apply (next_rowid_gt_ids (categories_seq d)) in Hin. lia.
  - rewrite map_app. apply Forall_app. split.
    + eapply Forall_impl; [ | exact Hseq ]. simpl. intros i Hi.
      pose proof (next_rowid_gt_seq (categories_seq d)
                    (map category_id (categories d))).
      lia.
    + constructor; [ simpl; lia | constructor ].
Qed.

Lemma CatInv_same_ids d ts cs cfg q :
  map category_id cs = map category_id (categories d) ->
  CatInv d -> CatInv (mkDb ts cs cfg q (categories_seq d)).
Proof.
  intros Hids [Hnd Hseq]. split; simpl; rewrite Hids; assumption.
Qed.

Lemma CatInv_delete_category d p :
  CatInv d ->
  CatInv (mkDb (tasks d) (filter p (categories d)) (config d)
            (tasks_seq d) (categories_seq d)).
Proof.
  intros [Hnd Hseq]. split; simpl.
  - apply NoDup_map_filter. exact Hnd.
  - apply Forall_map_filter. exact Hseq.
Qed.

Lemma keeps_cat_inv_preserved : Preserved keeps_cat_inv.
Proof.
  split.
  1: { intros d H; exact H. }
  1: { unfold keeps_cat_inv; intros a b c H1 H2 H; auto. }
  all: intros; intro w; unfold_stmt; simpl; case_stmt; unfold keeps_cat_inv;
    simpl; try exact (fun H => H); subst;
    first
      [ apply CatInv_insert_category
      | apply CatInv_delete_category
      | apply CatInv_same_ids;
        first
          [ reflexivity
          | apply map_id_map; intros ?;
            match goal with
            | |- context [if ?b then _ else _] => destruct b
            end; reflexivity ] ].
Qed.

Lemma keeps_cat_inv_initialize : respects keeps_cat_inv initialize.
Proof.
  intro w. unfold_stmt. simpl. case_stmt; intros [Hnd Hseq]; split; assumption.
Qed.

Lemma reachable_CatInv w : reachable w -> CatInv (db w).
Proof.
  intros [fk Hev].
  apply (respects_evolves keeps_cat_inv keeps_cat_inv_preserved
           keeps_cat_inv_initialize _ _ Hev).
  split; simpl; constructor.
Qed.

Lemma find_unique_category cats k :
  NoDup (map category_id cats) -> In k cats ->
  find (fun c => id_is (Some (category_id k)) (category_id c)) cats = Some k.
Proof.
  induction cats as [| c cats IH]; simpl; intros Hnd Hin; [ contradiction | ].
  inversion Hnd as [| ? ? Hnotin Hnd']; subst.
  destruct Hin as [-> | Hin].
  - rewrite Z.eqb_refl. reflexivity.
  - destruct (category_id k =? category_id c) eqn:E.
    + apply Z.eqb_eq in E. exfalso. apply Hnotin. rewrite <- E.
      apply in_map. exact Hin.
    + apply IH; assumption.
Qed.

(** ** createCategory and getCategory *)

(** X1: POST /categories answers 400 without running a statement when the
    name is missing or empty.  Otherwise it answers 201 with a generated id,
    the categories table gains exactly one row with that id and name,
    appended to the rows it had, tasks and config are untouched, and the id
    is the id of no category of any earlier state of the service. *)
Theorem createCategory_validated (w : World) (name : Field) :
  let r := fst (call (createCategory name) w) in
  let w' := snd (call (createCategory name) w) in
  (missing_or_empty name ->
     r = mkResponse 400 (Message "Category name is required.") /\ w' = w) /\
  (forall n, name = Some n -> n <> "" ->
     exists id,
       r = mkResponse 201
             (CategoryCreated "Category created successfully!" id) /\
       categories (db w') = (categories (db w) ++ [mkCategory id n])%list /\
       tasks (db w') = tasks (db w) /\
       config (db w') = config (db w) /\
       (forall w0 k, reachable w0 -> evolves w0 w ->
          In k (categories (db w0)) -> category_id k <> id)).
Proof.
  split.
  - intro Hmiss. apply truthy_false in Hmiss.
    unfold_handler. rewrite Hmiss. simpl. split; reflexivity.
  - intros n -> Hn. apply truthy_true in Hn.
    exists (next_rowid (categories_seq (db w))
              (map category_id (categories (db w)))).
    unfold_handler. simpl in Hn. rewrite Hn. simpl. repeat split.
    intros w0 k Hreach Hev Hin Heq.
    apply reachable_CatInv in Hreach. destruct Hreach as [_ Hseq].
    rewrite Forall_forall in Hseq.
    specialize (Hseq (category_id k) (in_map category_id _ _ Hin)).
    simpl in Hseq.
    apply evolves_seq_le in Hev. destruct Hev as [_ Hle].
    pose proof (next_rowid_gt_seq (categories_seq (db w))
                  (map category_id (categories (db w)))).
    lia.
Qed.

Lemma createCategory_validated_witness :
  (call (createCategory (Some "")) (sample true)
     = (mkResponse 400 (Message "Category name is required."), sample true)) /\
  (exists id,
     fst (call (createCategory (Some "work")) (sample true))
       = mkResponse 201
           (CategoryCreated "Category created successfully!" id) /\
     forall k, In k (categories (db (sample true))) -> category_id k <> id).
Proof.
  pose proof (createCategory_validated (sample true) (Some "")) as Hbad.
  pose proof (createCategory_validated (sample true) (Some "work")) as Hgood.
  cbv zeta in Hbad, Hgood.
  destruct Hbad as [Hbad _]. destruct Hgood as [_ Hgood].
  split.
  - destruct Hbad as [Hr Hw]; [ right; reflexivity | ].
    rewrite (surjective_pairing (call _ _)). rewrite Hr, Hw. reflexivity.
  - destruct (Hgood "work" eq_refl) as (id & Hr & _ & _ & _ & Hfresh);
      [ discriminate | ].
    exists id. split; [ exact Hr | ].
    intros k Hin. apply (Hfresh (sample true) k);
      [ apply serve_reachable | apply evolves_refl | exact Hin ].
Defined.

Lemma find_category_fresh cats id n :
  (forall k, In k cats -> category_id k <> id) ->
  find (fun c => id_is (Some id) (category_id c)) (cats ++ [mkCategory id n])
  = Some (mkCategory id n).
Proof.
  induction cats as [| c cats IH]; simpl; intro Hfresh.
  - rewrite Z.eqb_refl. reflexivity.
  - destruct (id =? category_id c) eqn:E.
    + apply Z.eqb_eq in E. exfalso. apply (Hfresh c); auto.
    + apply IH. intros k Hin. apply Hfresh. right. exact Hin.
Qed.

(** X2: in any state, a category created with a non-empty name can be read
    back: GET /categories/:id with the id POST /categories returned answers
    200 with exactly that name. *)
Theorem createCategory_getCategory (w : World) (n : string) :
  n <> "" ->
  exists id,
    fst (call (createCategory (Some n)) w)
      = mkResponse 201 (CategoryCreated "Category created successfully!" id) /\
    fst (call (getCategory (Some id)) (snd (call (createCategory (Some n)) w)))
      = mkResponse 200 (CategoryName n).
Proof.
  intro Hn. apply truthy_true in Hn.
  exists (next_rowid (categories_seq (db w))
            (map category_id (categories (db w)))).
  unfold_handler. simpl in Hn. rewrite Hn. simpl.
  split; [ reflexivity | ].
  pose proof (find_category_fresh (categories (db w))
                (next_rowid (categories_seq (db w))
                   (map category_id (categories (db w)))) n) as Hfind.
  simpl in Hfind. rewrite Hfind; [ reflexivity | ].
  intros k Hin Heq.
  pose proof (next_rowid_gt_ids (categories_seq (db w)) _ _
                (in_map category_id _ _ Hin)).
  lia.
Qed.

Lemma createCategory_getCategory_witness :
  exists id,
    fst (call (createCategory (Some "work")) (sample true))
      = mkResponse 201 (CategoryCreated "Category created successfully!" id) /\
    fst (call (getCategory (Some id))
              (snd (call (createCategory (Some "work")) (sample true))))
      = mkResponse 200 (CategoryName "work").
Proof.
  apply (createCategory_getCategory (sample true) "work"). discriminate.
Defined.

(** X3: GET /categories/:id never writes; it answers 404 "Category not
    found." when no category has that id, and in a reachable state, where
    ids are unique, it answers 200 with the name of the category that has
    it. *)
Theorem getCategory_lookup (w : World) (id : Id) :
  let r := fst (call (getCategory id) w) in
  let w' := snd (call (getCategory id) w) in
  db w' = db w /\
  (~ category_exists (db w) id ->
     r = mkResponse 404 (Message "Category not found.")) /\
  (forall k, reachable w -> In k (categories (db w)) ->
     id = Some (category_id k) ->
     r = mkResponse 200 (CategoryName (category_name k))).
Proof.
  split; [ | split ].
  - unfold_handler.
    destruct (find (fun c => id_is id (category_id c)) (categories (db w)));
      reflexivity.
  - intro Habs. apply find_category_absent in Habs.
    unfold_handler. rewrite Habs. reflexivity.
  - intros k Hreach Hin ->. apply reachable_CatInv in Hreach.
    destruct Hreach as [Hnd _].
    pose proof (find_unique_category _ _ Hnd Hin) as Hfind.
    unfold_handler. simpl in Hfind. rewrite Hfind. reflexivity.
Qed.

Lemma getCategory_lookup_witness :
  fst (call (getCategory (Some 7)) (sample true))
    = mkResponse 404 (Message "Category not found.") /\
  fst (call (getCategory (Some 1)) (sample true))
    = mkResponse 200 (CategoryName "home").
Proof.
  pose proof (getCategory_lookup (sample true) (Some 7)) as H7.
  pose proof (getCategory_lookup (sample true) (Some 1)) as H1.
  cbv zeta in H7, H1.
  destruct H7 as (_ & Habsent & _). destruct H1 as (_ & _ & Hfound).
  split.
  - apply Habsent. row_absent.
  - apply (Hfound (mkCategory 1 "home"));
      [ apply serve_reachable | vm_compute; left; reflexivity | reflexivity ].
Defined.

(** ** listTasks *)

Lemma filter_no_match (cats : list Category) i :
  (forall k, In k cats -> i <> Some (category_id k)) ->
  filter (fun c => id_is i (category_id c)) cats = [].
Proof.
  induction cats as [| c cats IH]; simpl; intro Hno; [ reflexivity | ].
  destruct (id_is i (category_id c)) eqn:E.
  - apply id_is_true in E. exfalso. apply (Hno c); auto.
  - apply IH. intros k Hin. apply Hno. right. exact Hin.
Qed.

Lemma join_task_unassigned cats t :
  task_category_id t = None ->
  join_task cats t
  = [mkTaskRow (task_id t) (task_name t) (task_description t) (task_eta t)
               None].
Proof.
  intro Hnone. unfold join_task. rewrite Hnone.
  rewrite filter_no_match; [ reflexivity | ]. intros k _. discriminate.
Qed.

(** X4: in any state, a task created with three non-empty fields shows up in
    the next GET /tasks as one more row, after the rows listed before,
    carrying the returned id, exactly the three values sent and no
    category. *)
Theorem createTask_listTasks (w : World) (n d e : string) :
  n <> "" -> d <> "" -> e <> "" ->
  let w' := snd (call (createTask (Some n) (Some d) (Some e)) w) in
  exists id rows,
    fst (call (createTask (Some n) (Some d) (Some e)) w)
      = mkResponse 201 (TaskCreated "Task created successfully!" id) /\
    fst (call listTasks w) = mkResponse 200 (TaskList rows) /\
    fst (call listTasks w')
      = mkResponse 200 (TaskList (rows ++ [mkTaskRow id n d e None])).
Proof.
  intros Hn Hd He. apply truthy_true in Hn, Hd, He.
  exists (next_rowid (tasks_seq (db w)) (map task_id (tasks (db w)))).
  exists (flat_map (join_task (categories (db w))) (tasks (db w))).
  unfold_handler. simpl in Hn, Hd, He. rewrite Hn, Hd, He. simpl.
  repeat split. rewrite flat_map_app. simpl.
  rewrite join_task_unassigned by reflexivity. reflexivity.
Qed.

Lemma createTask_listTasks_witness :
  exists id rows,
    fst (call (createTask (Some "call") (Some "the bank") (Some "today"))
              (sample true))
      = mkResponse 201 (TaskCreated "Task created successfully!" id) /\
    fst (call listTasks (sample true)) = mkResponse 200 (TaskList rows) /\
    fst (call listTasks
           (snd (call (createTask (Some "call") (Some "the bank")
                         (Some "today")) (sample true))))
      = mkResponse 200
          (TaskList (rows ++ [mkTaskRow id "call" "the bank" "today" None])).
Proof.
  apply (createTask_listTasks (sample true) "call" "the bank" "today");
    discriminate.
Defined.

Lemma filter_unique_category cats i :
  NoDup (map category_id cats) ->
  filter (fun c => id_is i (category_id c)) cats
  = match find (fun c => id_is i (category_id c)) cats with
    | Some k => [k]
    | None => []
    end.
Proof.
  induction cats as [| c cats IH]; simpl; intro Hnd; [ reflexivity | ].
  inversion Hnd as [| ? ? Hnotin Hnd']; subst.
  destruct (id_is i (category_id c)) eqn:E.
  - apply id_is_true in E. f_equal. apply filter_no_match.
    intros k Hin Heq. apply Hnotin. subst i. injection Heq as ->.
    apply in_map. exact Hin.
  - apply IH. exact Hnd'.
Qed.

Lemma join_task_unique cats t :
  NoDup (map category_id cats) -> join_task cats t = [task_row cats t].
Proof.
  intro Hnd. unfold join_task, task_row, category_of.
  rewrite (filter_unique_category cats _ Hnd).
  destruct (find (fun c => id_is (task_category_id t) (category_id c)) cats);
    reflexivity.
Qed.

(** X5: in a reachable state GET /tasks answers 200 with exactly one row per
    task, in table order: the task's id, name, description and eta, and as
    category the name of the category the task refers to, or none.  It never
    writes. *)
Theorem listTasks_rows (w : World) :
  reachable w ->
  fst (call listTasks w)
    = mkResponse 200 (TaskList (map (task_row (categories (db w)))
                                    (tasks (db w)))) /\
  db (snd (call listTasks w)) = db w.
Proof.
  intro Hreach. apply reachable_CatInv in Hreach. destruct Hreach as [Hnd _].
  unfold_handler. split; [ | reflexivity ]. do 2 f_equal.
  induction (tasks (db w)) as [| t ts IH]; simpl; [ reflexivity | ].
  rewrite (join_task_unique _ t Hnd). simpl. f_equal. exact IH.
Qed.

Lemma listTasks_rows_witness :
  fst (call listTasks (sample true))
    = mkResponse 200
        (TaskList [mkTaskRow 1 "write" "the report" "Friday" (Some "home")]).
Proof.
  apply (listTasks_rows (sample true)). apply serve_reachable.
Defined.

(** ** Referential integrity *)

(** Case analysis on what a handler branches on, innermost test first. *)
Ltac case_inner :=
  repeat match goal with
         | |- context [match ?x with _ => _ end] =>
             lazymatch x with
             | context [match _ with _ => _ end] => fail
             | _ => destruct x eqn:?
             end; simpl
         end.

Ltac unfold_route :=
  unfold listTasks, listCategories, getCategory, createTask, createCategory,
    updateTask, updateCategory, deleteTask, deleteCategory, assignCategory,
    setTheme, readTheme;
  unfold_stmt; simpl.

Lemma route_no_dangling r w :
  no_dangling (db w) -> no_dangling (db (snd (route r w))).
Proof.
  destruct r; simpl; unfold_route; case_inner; try exact (fun H => H);
    unfold no_dangling; simpl; intros Hnd tq cq Hin Hc.
  - (* POST /tasks *)
    apply in_app_or in Hin. destruct Hin as [Hin | [<- | []]].
    + eapply Hnd; eassumption.
    + discriminate Hc.
  - (* POST /categories *)
    destruct (Hnd tq cq Hin Hc) as (k & Hk & Hid).
    exists k. split; [ apply in_or_app; left; exact Hk | exact Hid ].
  - (* PUT /tasks/:id *)
    apply in_map_iff in Hin. destruct Hin as (t0 & <- & Hin0).
    apply (Hnd t0 cq Hin0). unfold update_task_row in Hc.
    destruct (id_is id (task_id t0)); exact Hc.
  - (* PUT /categories/:id *)
    destruct (Hnd tq cq Hin Hc) as (k & Hk & Hid).
    eexists. split; [ apply in_map; exact Hk | ].
    destruct (id_is id (category_id k)); exact Hid.
  - (* DELETE /tasks/:id *)
    apply filter_In in Hin. destruct Hin as [Hin _].
    eapply Hnd; eassumption.
  - (* DELETE /categories/:id *)
    apply in_map_iff in Hin. destruct Hin as (t0 & <- & Hin0).
    destruct (refers_to id t0) eqn:Href; [ discriminate Hc | ].
    destruct (Hnd t0 cq Hin0 Hc) as (k & Hk & Hid).
    exists k. split; [ | exact Hid ]. apply filter_In. split; [ exact Hk | ].
    unfold refers_to in Href. rewrite Hc in Href. rewrite Hid, Href.
    reflexivity.
  - (* POST /tasks/:id/assign-category, to a category *)
    apply in_map_iff in Hin. destruct Hin as (t0 & <- & Hin0).
    destruct (id_is _ (task_id t0)); [ | eapply Hnd; eassumption ].
    simpl in Hc. injection Hc as <-.
    match goal with
    | H : find _ (categories _) = Some ?k |- _ =>
        apply find_some in H; destruct H as [Hk Hid]; exists k
    end.
    split; [ exact Hk | ]. apply Z.eqb_eq in Hid. congruence.
  - (* the same, to no category *)
    apply in_map_iff in Hin. destruct Hin as (t0 & <- & Hin0).
    destruct (id_is _ (task_id t0)); [ discriminate Hc | ].
    eapply Hnd; eassumption.
Qed.

Lemma app_through_route k c r w :
  db (snd (app k c r w)) = db w \/
  db (snd (app k c r w)) = db (snd (route r w)).
Proof.
  unfold app, respond, api_key_middleware, send, ret.
  destruct (negb (truthy k)); simpl; [ left; reflexivity | ].
  destruct (negb (field_eqb c k)); simpl; [ left; reflexivity | ].
  right. destruct (route r w) as [[a | e] w1]; reflexivity.
Qed.

Lemma step_no_dangling w w' :
  step w w' -> no_dangling (db w) -> no_dangling (db w').
Proof.
  intros [w0 k c r | w0] Hnd.
  - destruct (app_through_route k c r w0) as [-> | ->];
      [ exact Hnd | apply route_no_dangling; exact Hnd ].
  - unfold_stmt. simpl. case_inner; exact Hnd.
Qed.

Lemma evolves_no_dangling w0 w :
  evolves w0 w -> no_dangling (db w0) -> no_dangling (db w).
Proof.
  induction 1 as [w0 | w0 w1 w2 _ IH Hstep]; intro Hnd; [ exact Hnd | ].
  eapply step_no_dangling; [ exact Hstep | apply IH; exact Hnd ].
Qed.

(** X6: in every reachable state, whether the connection enforces foreign
    keys or not, a task that carries a category id refers to a category
    that is in the categories table. *)
Theorem reachable_no_dangling (w : World) :
  reachable w -> no_dangling (db w).
Proof.
  intros [fk Hev]. apply (evolves_no_dangling _ _ Hev). intros t c [].
Qed.

Lemma reachable_no_dangling_witness :
  no_dangling (db (sample false)).
Proof. apply (reachable_no_dangling (sample false)). apply serve_reachable. Defined.

Lemma category_of_none cats t :
  no_dangling_task cats t ->
  (category_of cats t = None <-> task_category_id t = None).
Proof.
  unfold no_dangling_task, category_of. intro Hnd. split.
  - destruct (task_category_id t) as [c |] eqn:Hc; [ | reflexivity ].
    destruct (Hnd c eq_refl) as (k & Hk & Hid).
    destruct (find (fun c0 => id_is (Some c) (category_id c0)) cats)
      as [k' |] eqn:E; [ discriminate | ].
    apply (find_none _ _ E) in Hk. simpl in Hk.
    apply Z.eqb_neq in Hk. congruence.
  - intros ->. simpl.
    destruct (find (fun _ => false) cats) eqn:E; [ | reflexivity ].
    apply find_some in E. destruct E as [_ E]. discriminate E.
Qed.

(** X7: in a reachable state, the rows of GET /tasks follow the tasks one
    for one, and a row has no category exactly when the task's category_id
    is null: a category id always resolves to a name. *)
Theorem listTasks_category_resolves (w : World) :
  reachable w ->
  exists rows,
    fst (call listTasks w) = mkResponse 200 (TaskList rows) /\
    Forall2 (fun t row =>
               row_id row = task_id t /\
               (row_category row = None <-> task_category_id t = None))
            (tasks (db w)) rows.
Proof.
  intro Hreach.
  assert (Hnd : no_dangling (db w)).
  { destruct Hreach as [fk Hev]. apply (evolves_no_dangling _ _ Hev).
    intros t c []. }
  apply reachable_CatInv in Hreach. destruct Hreach as [Hnodup _].
  exists (map (task_row (categories (db w))) (tasks (db w))). split.
  - unfold_handler. do 2 f_equal.
    induction (tasks (db w)) as [| t ts IH]; simpl; [ reflexivity | ].
    rewrite (join_task_unique _ t Hnodup). simpl. f_equal. exact IH.
  - unfold no_dangling in Hnd.
    induction (tasks (db w)) as [| t ts IH]; simpl; constructor.
    + split; [ reflexivity | ]. simpl. apply category_of_none.
      intros c Hc. apply (Hnd t c); [ left; reflexivity | exact Hc ].
    + apply IH. intros t0 c Hin. apply Hnd. right. exact Hin.
Qed.

Lemma listTasks_category_resolves_witness :
  exists rows,
    fst (call listTasks (sample false)) = mkResponse 200 (TaskList rows) /\
    Forall2 (fun t row =>
               row_id row = task_id t /\
               (row_category row = None <-> task_category_id t = None))
            (tasks (db (sample false))) rows.
Proof.
  apply (listTasks_category_resolves (sample false)). apply serve_reachable.
Defined.

Lemma assignCategory_db (w : World) (t : Task) (k : Category) :
  In t (tasks (db w)) -> In k (categories (db w)) ->
  call (assignCategory (Some (task_id t)) (Some (category_id k))) w
  = (mkResponse 200 (Message "Aye aye, category assigned successfully!"),
     mkWorld
       (mkDb (map (fun t0 => if task_id t =? task_id t0
                             then mkTask (task_id t0) (task_name t0)
                                    (task_description t0) (task_eta t0)
                                    (Some (category_id k))
                             else t0) (tasks (db w)))
             (categories (db w)) (config (db w))
             (tasks_seq (db w)) (categories_seq (db w)))
       (sql_log w
          ++ [SqlSelectTask (Some (task_id t));
              SqlSelectCategory (Some (category_id k));
              SqlAssignCategory (Some (category_id k)) (Some (task_id t))])
       (foreign_keys w)).
Proof.
  intros Ht Hk.
  assert (Htex : task_exists (db w) (Some (task_id t))) by (exists t; auto).
  assert (Hkex : category_exists (db w) (Some (category_id k)))
    by (exists k; auto).
  destruct (find_task_exists _ _ Htex) as [t1 Hfind1].
  destruct (find_category_exists _ _ Hkex) as [k1 Hfind2].
  pose proof (existsb_category_id _ _ Hkex) as Hb.
  unfold_handler. simpl in Hfind1, Hfind2. rewrite Hfind1, Hfind2. simpl.
  rewrite Hb. rewrite andb_false_r. simpl.
  rewrite <- !app_assoc. reflexivity.
Qed.

(** X8: in a reachable state, once an existing task is assigned to an
    existing category, the next GET /tasks lists that task with its own
    fields and the name of that category. *)
Theorem assignCategory_listTasks (w : World) (t : Task) (k : Category) :
  reachable w ->
  In t (tasks (db w)) -> In k (categories (db w)) ->
  let w' := snd (call (assignCategory (Some (task_id t))
                         (Some (category_id k))) w) in
  exists rows,
    fst (call listTasks w') = mkResponse 200 (TaskList rows) /\
    In (mkTaskRow (task_id t) (task_name t) (task_description t) (task_eta t)
                  (Some (category_name k))) rows.
Proof.
  intros Hreach Ht Hk. apply reachable_CatInv in Hreach.
  destruct Hreach as [Hnodup _].
  rewrite (assignCategory_db w t k Ht Hk). simpl.
  eexists. split.
  - unfold_handler. reflexivity.
  - apply in_flat_map. eexists. split.
    + apply in_map_iff. exists t. split; [ reflexivity | exact Ht ].
    + rewrite Z.eqb_refl. rewrite (join_task_unique _ _ Hnodup).
      left. unfold task_row, category_of. simpl.
      pose proof (find_unique_category _ _ Hnodup Hk) as Hfind.
      simpl in Hfind. rewrite Hfind. reflexivity.
Qed.

Lemma assignCategory_listTasks_witness :
  exists rows,
    fst (call listTasks
           (snd (call (assignCategory (Some 1) (Some 1)) (sample true))))
      = mkResponse 200 (TaskList rows) /\
    In (mkTaskRow 1 "write" "the report" "Friday" (Some "home")) rows.
Proof.
  apply (assignCategory_listTasks (sample true)
           (mkTask 1 "write" "the report" "Friday" (Some 1))
           (mkCategory 1 "home"));
    [ apply serve_reachable | vm_compute; left; reflexivity
    | vm_compute; left; reflexivity ].
Defined.

(** ** Start-up *)

(** X9: the start-up script is idempotent, and on the database of a
    reachable state it changes nothing: a restart keeps every task and
    category, the rowid counters and the theme that was set. *)
Theorem initialize_idempotent (w : World) :
  db (snd (initialize (snd (initialize w)))) = db (snd (initialize w)) /\
  (reachable w -> db (snd (initialize w)) = db w).
Proof.
  split.
  - unfold_stmt. simpl.
    destruct (existsb (fun c => config_id c =? 1) (config (db w))) eqn:E;
      simpl.
    + rewrite E. reflexivity.
    + rewrite existsb_app. simpl. rewrite orb_true_r. reflexivity.
  - intro Hreach. apply reachable_Inv in Hreach.
    destruct Hreach as [_ _ (th & Hcfg & _)].
    unfold_stmt. simpl. rewrite Hcfg. reflexivity.
Qed.

Lemma initialize_idempotent_witness :
  db (snd (initialize (snd (call (setTheme (Some "Snow")) (sample true)))))
  = db (snd (call (setTheme (Some "Snow")) (sample true))).
Proof.
  apply (initialize_idempotent
           (snd (call (setTheme (Some "Snow")) (sample true)))).
  exists true. eapply evolves_step; [ apply serve_evolves | ].
  apply (step_request _ (Some "secret") (Some "secret")
           (POST_theme (Some "Snow"))).
Defined.

(** ** What requests do not do *)

(** X10: a GET request never changes the database, whatever the keys and
    the state. *)
Theorem get_requests_read_only (serverApiKey clientApiKey : Field)
    (r : Request) (w : World) :
  is_get r = true ->
  db (snd (app serverApiKey clientApiKey r w)) = db w.
Proof.
  intro Hget. unfold app, respond, api_key_middleware, route.
  destruct r; try discriminate Hget; unfold_route; case_inner; reflexivity.
Qed.

Lemma get_requests_read_only_witness :
  db (snd (app (Some "secret") (Some "secret") GET_tasks (sample true)))
  = db (sample true).
Proof.
  apply (get_requests_read_only (Some "secret") (Some "secret") GET_tasks
           (sample true)).
  reflexivity.
Defined.

(** X11: a request that is answered with anything else than 200 or 201
    leaves the database exactly as it was, in any state: every statement
    that can fail does so before anything is written. *)
Theorem failed_request_changes_nothing (serverApiKey clientApiKey : Field)
    (r : Request) (w : World) :
  status (fst (app serverApiKey clientApiKey r w)) <> 200 ->
  status (fst (app serverApiKey clientApiKey r w)) <> 201 ->
  db (snd (app serverApiKey clientApiKey r w)) = db w.
Proof.
  unfold app, respond, api_key_middleware, route.
  destruct r; unfold_route; case_inner; intros H200 H201;
    try reflexivity; exfalso;
    first [ apply H200; reflexivity | apply H201; reflexivity ].
Qed.

Lemma failed_request_changes_nothing_witness :
  db (snd (app (Some "secret") (Some "secret") (DELETE_category (Some 1))
             (sample true)))
  = db (sample true).
Proof.
  apply (failed_request_changes_nothing (Some "secret") (Some "secret")
           (DELETE_category (Some 1)) (sample true));
    vm_compute; discriminate.
Defined.


(** ** Deleting tasks *)

Lemma find_after_delete (l : list Task) id :
  find (fun t => id_is id (task_id t))
       (filter (fun t => negb (id_is id (task_id t))) l) = None.
Proof.
  induction l as [| t l IH]; simpl; [ reflexivity | ].
  destruct (id_is id (task_id t)) eqn:E; simpl; [ exact IH | ].
  rewrite E. exact IH.
Qed.

(** X13: in any state and for any id, a second DELETE /tasks/:id right
    after the first answers 404 "Task not found." *)
Theorem deleteTask_twice (w : World) (id : Id) :
  fst (call (deleteTask id) (snd (call (deleteTask id) w)))
  = mkResponse 404 (Message "Task not found.").
Proof.
  unfold_handler.
  destruct (find (fun t => id_is id (task_id t)) (tasks (db w))) eqn:E; simpl.
  - rewrite find_after_delete. reflexivity.
  - rewrite E. reflexivity.
Qed.

Lemma filter_fresh_task (l : list Task) id n d e :
  (forall t, In t l -> task_id t <> id) ->
  filter (fun t => negb (id =? task_id t)) (l ++ [mkTask id n d e None]) = l.
Proof.
  induction l as [| t l IH]; simpl; intro Hfresh.
  - rewrite Z.eqb_refl. reflexivity.
  - destruct (id =? task_id t) eqn:E.
    + apply Z.eqb_eq in E. exfalso. apply (Hfresh t); auto.
    + simpl. f_equal. apply IH. intros t0 Hin. apply Hfresh. right. exact Hin.
Qed.

Lemma find_fresh_task (l : list Task) id n d e :
  (forall t, In t l -> task_id t <> id) ->
  find (fun t => id =? task_id t) (l ++ [mkTask id n d e None])
  = Some (mkTask id n d e None).
Proof.
  induction l as [| t l IH]; simpl; intro Hfresh.
  - rewrite Z.eqb_refl. reflexivity.
  - destruct (id =? task_id t) eqn:E.
    + apply Z.eqb_eq in E. exfalso. apply (Hfresh t); auto.
    + apply IH. intros t0 Hin. apply Hfresh. right. exact Hin.
Qed.

(** X14: in any state, deleting the task that POST /tasks just created
    answers 200 and gives back the tasks, categories and config there were
    before the creation; only the rowid counter remembers the id. *)
Theorem createTask_deleteTask (w : World) (n d e : string) :
  n <> "" -> d <> "" -> e <> "" ->
  let w1 := snd (call (createTask (Some n) (Some d) (Some e)) w) in
  exists id,
    fst (call (createTask (Some n) (Some d) (Some e)) w)
      = mkResponse 201 (TaskCreated "Task created successfully!" id) /\
    fst (call (deleteTask (Some id)) w1)
      = mkResponse 200 (Message "Task deleted successfully!") /\
    tasks (db (snd (call (deleteTask (Some id)) w1))) = tasks (db w) /\
    categories (db (snd (call (deleteTask (Some id)) w1)))
      = categories (db w) /\
    config (db (snd (call (deleteTask (Some id)) w1))) = config (db w) /\
    tasks_seq (db (snd (call (deleteTask (Some id)) w1))) = id.
Proof.
  intros Hn Hd He. apply truthy_true in Hn, Hd, He.
  assert (Hfresh : forall t, In t (tasks (db w)) ->
            task_id t <> next_rowid (tasks_seq (db w))
                           (map task_id (tasks (db w)))).
  { intros t Hin Heq.
    pose proof (next_rowid_gt_ids (tasks_seq (db w)) _ _
                  (in_map task_id _ _ Hin)).
    lia. }
  exists (next_rowid (tasks_seq (db w)) (map task_id (tasks (db w)))).
  unfold_handler. simpl in Hn, Hd, He. rewrite Hn, Hd, He. simpl.
  rewrite (find_fresh_task _ _ n d e Hfresh). simpl.
  rewrite (filter_fresh_task _ _ n d e Hfresh). repeat split.
Qed.

Lemma createTask_deleteTask_witness :
  exists id,
    fst (call (createTask (Some "call") (Some "the bank") (Some "today"))
              (sample true))
      = mkResponse 201 (TaskCreated "Task created successfully!" id) /\
    tasks (db (snd (call (deleteTask (Some id))
                      (snd (call (createTask (Some "call") (Some "the bank")
                                    (Some "today")) (sample true))))))
      = tasks (db (sample true)).
Proof.
  destruct (createTask_deleteTask (sample true) "call" "the bank" "today")
    as (id & Hr & _ & Htasks & _); try discriminate.
  exists id. split; assumption.
Defined.

(** ** Where a 500 comes from *)

Lemma find_category_some d id c :
  find (fun c => id_is id (category_id c)) (categories d) = Some c ->
  category_exists d id.
Proof.
  intro H. apply find_some in H. destruct H as [Hin Hid].
  apply id_is_true in Hid. exists c. auto.
Qed.





(** ** Reading the theme *)

(** X16: in a reachable state GET /theme answers 200 with one of the four
    themes, and changes nothing in the database. *)
Theorem readTheme_valid (w : World) :
  reachable w ->
  exists th,
    In th validThemes /\
    fst (call readTheme w) = mkResponse 200 (Theme th) /\
    db (snd (call readTheme w)) = db w.
Proof.
  intro Hreach. apply reachable_Inv in Hreach.
  destruct Hreach as [_ _ (th & Hcfg & Hth)].
  exists th. split; [ exact Hth | ].
  unfold_handler. rewrite Hcfg. simpl. split; reflexivity.
Qed.

Lemma readTheme_valid_witness :
  exists th,
    In th validThemes /\
    fst (call readTheme (sample true)) = mkResponse 200 (Theme th) /\
    db (snd (call readTheme (sample true))) = db (sample true).
Proof. apply (readTheme_valid (sample true)). apply serve_reachable. Defined.

(** ** deleteCategory under foreign keys *)

Lemma map_no_reference id (l : list Task) :
  existsb (refers_to id) l = false ->
  map (fun t => if refers_to id t
                then mkTask (task_id t) (task_name t) (task_description t)
                            (task_eta t) None
                else t) l = l.
Proof.
  induction l as [| t l IH]; simpl; intro H; [ reflexivity | ].
  apply orb_false_iff in H. destruct H as [Ht Hl].
  rewrite Ht. f_equal. apply IH. exact Hl.
Qed.

(** X17: with foreign keys enforced, a DELETE /categories/:id that answers
    200 has changed no task: the statement that clears the references only
    runs when there is none to clear. *)
Theorem deleteCategory_enforced_clears_nothing (w : World) (id : Id) :
  foreign_keys w = true ->
  status (fst (call (deleteCategory id) w)) = 200 ->
  tasks (db (snd (call (deleteCategory id) w))) = tasks (db w).
Proof.
  intros Hfk. unfold_handler. rewrite Hfk. simpl.
  destruct (find (fun c => id_is id (category_id c)) (categories (db w)))
    as [k |] eqn:Hk; simpl; [ | discriminate ].
  rewrite (existsb_category_exists _ _ (find_category_some _ _ _ Hk)). simpl.
  destruct (existsb (refers_to id) (tasks (db w))) eqn:Href; simpl;
    [ discriminate | ].
  intros _. apply map_no_reference. exact Href.
Qed.

Lemma deleteCategory_enforced_clears_nothing_witness :
  tasks (db (snd (call (deleteCategory (Some 2))
                    (snd (call (createCategory (Some "work")) (sample true))))))
  = tasks (db (snd (call (createCategory (Some "work")) (sample true)))).
Proof.
  apply (deleteCategory_enforced_clears_nothing
           (snd (call (createCategory (Some "work")) (sample true)))
           (Some 2));
    vm_compute; reflexivity.
Defined.

(** ** Categories: rename and delete, then read *)

Lemma find_renamed (cats : list Category) i s :
  (exists k, In k cats /\ category_id k = i) ->
  find (fun c => i =? category_id c)
       (map (fun c => if i =? category_id c
                      then mkCategory (category_id c) s else c) cats)
  = Some (mkCategory i s).
Proof.
  induction cats as [| c cats IH]; simpl; intros (k & Hin & Hid);
    [ contradiction | ].
  destruct (i =? category_id c) eqn:E; simpl.
  - rewrite E. apply Z.eqb_eq in E. rewrite E. reflexivity.
  - rewrite E. apply IH. destruct Hin as [-> | Hin].
    + apply Z.eqb_neq in E. congruence.
    + exists k. auto.
Qed.

(** X18: in any state, after PUT /categories/:id gave an existing category
    a name, the empty string included, GET /categories/:id answers 200 with
    that name. *)
Theorem updateCategory_getCategory (w : World) (id : Id) (s : string) :
  category_exists (db w) id ->
  fst (call (updateCategory id (Some s)) w)
    = mkResponse 200 (Message "Category updated successfully!") /\
  fst (call (getCategory id) (snd (call (updateCategory id (Some s)) w)))
    = mkResponse 200 (CategoryName s).
Proof.
  intro Hex. destruct (find_category_exists _ _ Hex) as [k0 Hfind].
  destruct Hex as (k & Hin & ->).
  unfold_handler. simpl in Hfind. rewrite Hfind. simpl.
  split; [ reflexivity | ].
  rewrite find_renamed; [ reflexivity | ]. exists k. auto.
Qed.

Lemma updateCategory_getCategory_witness :
  fst (call (getCategory (Some 1))
            (snd (call (updateCategory (Some 1) (Some "")) (sample true))))
    = mkResponse 200 (CategoryName "").
Proof.
  apply (updateCategory_getCategory (sample true) (Some 1) "").
  row_present.
Defined.

Lemma find_category_after_delete (l : list Category) id :
  find (fun c => id_is id (category_id c))
       (filter (fun c => negb (id_is id (category_id c))) l) = None.
Proof.
  induction l as [| c l IH]; simpl; [ reflexivity | ].
  destruct (id_is id (category_id c)) eqn:E; simpl; [ exact IH | ].
  rewrite E. exact IH.
Qed.

(** X19: in any state, with or without foreign keys, once
    DELETE /categories/:id has answered 200 the category is gone:
    GET /categories/:id answers 404 "Category not found." and no task
    refers to that id. *)
Theorem deleteCategory_getCategory (w : World) (id : Id) :
  status (fst (call (deleteCategory id) w)) = 200 ->
  let w' := snd (call (deleteCategory id) w) in
  fst (call (getCategory id) w')
    = mkResponse 404 (Message "Category not found.") /\
  (forall t, In t (tasks (db w')) -> refers_to id t = false).
Proof.
  unfold_handler.
  destruct (find (fun c => id_is id (category_id c)) (categories (db w)))
    as [k |] eqn:Hk; simpl; [ | discriminate ].
  destruct (foreign_keys w
            && existsb (fun c => id_is id (category_id c)) (categories (db w))
            && existsb (refers_to id) (tasks (db w))); simpl;
    [ discriminate | ].
  intros _. split.
  - rewrite find_category_after_delete. reflexivity.
  - intros t Hin. apply in_map_iff in Hin. destruct Hin as (t0 & <- & _).
    destruct (refers_to id t0) eqn:E; [ reflexivity | exact E ].
Qed.

Lemma deleteCategory_getCategory_witness :
  fst (call (getCategory (Some 1))
            (snd (call (deleteCategory (Some 1)) (sample false))))
    = mkResponse 404 (Message "Category not found.").
Proof.
  apply (deleteCategory_getCategory (sample false) (Some 1)).
  vm_compute. reflexivity.
Defined.
